(** * atlasrpi.i2c: the AtlasI2c request/response channel

    A shallow embedding of [src/atlasrpi/i2c.py] (class [AtlasI2c]) and the
    properties of its framing, classification and address handling.

    Conventions.
    - A Python [int] is a [Z]; a [bytes] object is a [list byte]; a [str] is
      the list of its Unicode code points.
    - The calls made on the two file objects and on [time] are recorded in a
      trace, most recent call first.  What each call returns is decided by an
      [OS] oracle that sees the whole trace so far, so a device may answer
      differently each time it is read.
    - A method is a function from the state before to the state after and
      either the raised exception or the returned value.  A raised exception
      keeps the mutations done so far, as in Python. *)

From Stdlib Require Import ZArith NArith QArith List Bool Lia Sorting.Sorted.
From Stdlib Require Import Strings.Byte Ascii String DecimalString.
Import ListNotations.

#[local] Open Scope Z_scope.

(** ** Python values *)

Definition bytes := list byte.

(** A [str]: its code points. *)
Definition str := list N.

(** A source literal made of ASCII characters. *)
Definition lit (s : string) : str :=
  map N_of_ascii (list_ascii_of_string s).

(** Iterating a [bytes] object yields ints in [range(256)]. *)
Definition iter_bytes (b : bytes) : list Z :=
  map (fun x => Z.of_N (Byte.to_N x)) b.

(** [str(n)] for an int. *)
Definition str_of_int (n : Z) : str :=
  lit (NilZero.string_of_int (Z.to_int n)).

Inductive exn : Type :=
| OSError (errno : Z)            (* IOError is the same class in Python 3 *)
| StopIteration
| Exception (msg : str)
| ValueError
| UnicodeEncodeError
| UnicodeDecodeError.

Definition is_IOError (e : exn) : bool :=
  match e with
  | OSError _ => true
  | _ => false
  end.

(** [bytes(iterable_of_ints)]: every int must be in [range(256)]. *)
Fixpoint bytes_of_ints (l : list Z) : exn + bytes :=
  match l with
  | [] => inr []
  | x :: l' =>
      if (0 <=? x) && (x <? 256) then
        match Byte.of_N (Z.to_N x), bytes_of_ints l' with
        | Some b, inr bs => inr (b :: bs)
        | _, inl e => inl e
        | None, _ => inl ValueError
        end
      else inl ValueError
  end.

(** ** UTF-8, as [str.encode('UTF-8')] and [bytes.decode('UTF-8')] *)

Definition byte_of_N (n : N) : byte :=
  match Byte.of_N n with
  | Some b => b
  | None => x00
  end.

(** The bytes of one code point; a surrogate or a value above U+10FFFF has
    no encoding. *)
Definition encode_char (c : N) : option bytes :=
  (if c <? 0x80 then Some [byte_of_N c]
   else if c <? 0x800 then
     Some [byte_of_N (0xC0 + c / 64); byte_of_N (0x80 + c mod 64)]
   else if c <? 0x10000 then
     if (0xD800 <=? c) && (c <=? 0xDFFF) then None
     else Some [byte_of_N (0xE0 + c / 4096);
                byte_of_N (0x80 + (c / 64) mod 64);
                byte_of_N (0x80 + c mod 64)]
   else if c <? 0x110000 then
     Some [byte_of_N (0xF0 + c / 262144);
           byte_of_N (0x80 + (c / 4096) mod 64);
           byte_of_N (0x80 + (c / 64) mod 64);
           byte_of_N (0x80 + c mod 64)]
   else None)%N.

Fixpoint encode_utf8 (s : str) : exn + bytes :=
  match s with
  | [] => inr []
  | c :: s' =>
      match encode_char c, encode_utf8 s' with
      | Some b, inr bs => inr (b ++ bs)
      | None, _ => inl UnicodeEncodeError
      | _, inl e => inl e
      end
  end.

Definition in_range (lo hi b : N) : bool := ((lo <=? b) && (b <=? hi))%N.

(** Strict decoding: the well-formed byte sequences of the Unicode standard
    (no overlong form, no surrogate, nothing above U+10FFFF). *)
Fixpoint decode_utf8_N (bs : list N) : option str :=
  let cons_to c r := option_map (cons c) (decode_utf8_N r) in
  (match bs with
   | [] => Some []
   | b0 :: r0 =>
       if b0 <? 0x80 then cons_to b0 r0
       else if in_range 0xC2 0xDF b0 then
         match r0 with
         | b1 :: r1 =>
             if in_range 0x80 0xBF b1
             then cons_to ((b0 - 0xC0) * 64 + (b1 - 0x80)) r1
             else None
         | _ => None
         end
       else if in_range 0xE0 0xEF b0 then
         match r0 with
         | b1 :: b2 :: r2 =>
             if in_range (if b0 =? 0xE0 then 0xA0 else 0x80)
                         (if b0 =? 0xED then 0x9F else 0xBF) b1
                && in_range 0x80 0xBF b2
             then cons_to ((b0 - 0xE0) * 4096 + (b1 - 0x80) * 64 + (b2 - 0x80)) r2
             else None
         | _ => None
         end
       else if in_range 0xF0 0xF4 b0 then
         match r0 with
         | b1 :: b2 :: b3 :: r3 =>
             if in_range (if b0 =? 0xF0 then 0x90 else 0x80)
                         (if b0 =? 0xF4 then 0x8F else 0xBF) b1
                && in_range 0x80 0xBF b2 && in_range 0x80 0xBF b3
             then cons_to ((b0 - 0xF0) * 262144 + (b1 - 0x80) * 4096
                           + (b2 - 0x80) * 64 + (b3 - 0x80)) r3
             else None
         | _ => None
         end
       else None
   end)%N.

Definition decode_utf8 (b : bytes) : exn + str :=
  match decode_utf8_N (map Byte.to_N b) with
  | Some s => inr s
  | None => inl UnicodeDecodeError
  end.

(** [s.startswith(prefix)] *)
Fixpoint startswith (s prefix : str) : bool :=
  match prefix, s with
  | [], _ => true
  | p :: prefix', c :: s' => (c =? p)%N && startswith s' prefix'
  | _ :: _, [] => false
  end.

(** ** The channel and its environment *)

Inductive stream : Type := file_read | file_write.

(** A call on one of the two file objects or on [time]. *)
Inductive call : Type :=
| Ioctl (f : stream) (request : Z) (arg : Z)
| Write (data : bytes)
| Read (size : Z)
| Sleep (seconds : Q).

(** What the operating system and the bus answer.  Each answer may depend on
    every call made before (most recent first). *)
Record OS : Type := {
  ioctl_raises : list call -> stream -> Z -> Z -> option exn;
  write_raises : list call -> bytes -> option exn;
  read_returns : list call -> Z -> exn + bytes
}.

(** [self.current_addr] and the calls made so far. *)
Record state : Type := {
  current_addr : Z;
  calls : list call
}.

Definition M (A : Type) : Type := state -> state * (exn + A).

Definition ret {A} (a : A) : M A := fun s => (s, inr a).

Definition raise {A} (e : exn) : M A := fun s => (s, inl e).

Definition bind {A B} (m : M A) (k : A -> M B) : M B :=
  fun s =>
    match m s with
    | (s', inr a) => k a s'
    | (s', inl e) => (s', inl e)
    end.

Notation "x <- m ;; k" := (bind m (fun x => k))
  (at level 61, m at next level, right associativity).
Notation "m ;; k" := (bind m (fun _ => k))
  (at level 61, right associativity).

(** [try: body except IOError: handler] *)
Definition try_except_IOError {A} (body handler : M A) : M A :=
  fun s =>
    match body s with
    | (s', inl e) => if is_IOError e then handler s' else (s', inl e)
    | r => r
    end.

(** A pure step that may raise. *)
Definition lift {A} (r : exn + A) : M A := fun s => (s, r).

(** [for i in l: acc = body(i, acc)] *)
Fixpoint for_each {A} (l : list Z) (body : Z -> A -> M A) (acc : A) : M A :=
  match l with
  | [] => ret acc
  | i :: l' => acc' <- body i acc ;; for_each l' body acc'
  end.

(** [range(lo, lo + n)] *)
Definition range (lo : Z) (n : nat) : list Z :=
  map (fun k => lo + Z.of_nat k) (seq 0 n).

Definition record_call (c : call) (s : state) : state :=
  {| current_addr := current_addr s; calls := c :: calls s |}.

(** the timeout needed to query readings and calibrations *)
Definition long_timeout : Q := 3 # 2.

(** timeout for regular commands *)
Definition short_timeout : Q := 1 # 2.

Definition default_bus : Z := 1.

Definition default_address : Z := 99.

(** Lines 77-87 of [read_bytes]: what is made of the bytes read. *)
Definition parse_response (res : bytes) : exn + bytes :=
  let response := filter (fun x => negb (x =? 0)) (iter_bytes res) in
  match response with
  | [] => inl StopIteration                      (* next(response) *)
  | reponse_code :: response' =>
      if reponse_code =? 1 then
        bytes_of_ints (map (fun x => Z.land x (Z.lnot 0x80)) response')
      else
        inl (Exception (lit "Error " ++ str_of_int reponse_code))
  end.

Section Channel.

(** The full uppercase mapping of one code point, which [str.upper] applies
    to every character. *)
Variable to_upper_full : N -> list N.

Variable os : OS.

Definition upper (s : str) : str := flat_map to_upper_full s.

Definition ioctl (f : stream) (request arg : Z) : M unit :=
  fun s =>
    (record_call (Ioctl f request arg) s,
     match ioctl_raises os (calls s) f request arg with
     | Some e => inl e
     | None => inr tt
     end).

Definition file_write_write (data : bytes) : M unit :=
  fun s =>
    (record_call (Write data) s,
     match write_raises os (calls s) data with
     | Some e => inl e
     | None => inr tt
     end).

Definition file_read_read (size : Z) : M bytes :=
  fun s => (record_call (Read size) s, read_returns os (calls s) size).

Definition time_sleep (seconds : Q) : M unit :=
  fun s => (record_call (Sleep seconds) s, inr tt).

Definition set_current_addr (addr : Z) : M unit :=
  fun s => ({| current_addr := addr; calls := calls s |}, inr tt).

Definition get_current_addr : M Z :=
  fun s => (s, inr (current_addr s)).

Definition set_i2c_address (addr : Z) : M unit :=
  let I2C_SLAVE := 0x703 in
  ioctl file_read I2C_SLAVE addr ;;
  ioctl file_write I2C_SLAVE addr ;;
  set_current_addr addr.

Definition write (string : str) : M unit :=
  data <- lift (encode_utf8 (string ++ [0%N])) ;;
  file_write_write data.

Definition read_bytes (num_of_bytes : Z) : M bytes :=
  res <- file_read_read num_of_bytes ;;
  lift (parse_response res).

Definition read (num_of_bytes : Z) : M str :=
  b <- read_bytes num_of_bytes ;;
  lift (decode_utf8 b).

Definition query_bytes (string : str) : M bytes :=
  write string ;;
  let string_upper := upper string in
  (if startswith string_upper (lit "R")
      || startswith string_upper (lit "CAL")
   then time_sleep long_timeout
   else if startswith string_upper (lit "SLEEP")
   then raise (Exception (lit "sleep mode"))
   else time_sleep short_timeout) ;;
  read_bytes 31.

Definition query (string : str) : M str :=
  b <- query_bytes string ;;
  lift (decode_utf8 b).

(** The body of the loop of [list_i2c_devices]. *)
Definition probe (i : Z) (i2c_devices : list Z) : M (list Z) :=
  try_except_IOError
    (set_i2c_address i ;;
     read_bytes 31 ;;
     ret (i2c_devices ++ [i]))
    (ret i2c_devices).

Definition list_i2c_devices : M (list Z) :=
  orig_addr <- get_current_addr ;;
  i2c_devices <- for_each (range 0 128) probe [] ;;
  set_i2c_address orig_addr ;;
  ret i2c_devices.

End Channel.

(** ** Concrete environments *)

(** Uppercasing of the ASCII letters; other code points are left alone.  On
    ASCII text this is [str.upper]. *)
Definition ascii_upper (c : N) : list N :=
  if ((97 <=? c) && (c <=? 122))%N then [(c - 32)%N] else [c].

(** The address the read stream was last bound to. *)
Fixpoint bound_read_addr (tr : list call) : option Z :=
  match tr with
  | [] => None
  | Ioctl file_read _ a :: _ => Some a
  | _ :: tr' => bound_read_addr tr'
  end.

(** A bus on which every bind and every write is accepted and a read is
    answered by [device], given the address the read stream is bound to. *)
Definition bus (device : option Z -> exn + bytes) : OS :=
  {| ioctl_raises := fun _ _ _ _ => None;
     write_raises := fun _ _ => None;
     read_returns := fun tr _ => device (bound_read_addr tr) |}.

(** Sets bit 7, as the transport does to every payload byte. *)
Definition glitch (c : N) : byte := byte_of_N (N.lor c 0x80).

(** A success frame carrying [text]. *)
Definition frame_of (text : string) : bytes :=
  x01 :: map glitch (lit text) ++ [x00].

Definition EREMOTEIO : Z := 121.

(** Only the devices at 99 and 100 answer a read; elsewhere the read fails
    with an I/O error. *)
Definition bus_99_100 : OS :=
  bus (fun a =>
         match a with
         | Some 99 => inr (frame_of "?I,pH,1.0")
         | Some 100 => inr (frame_of "7.00")
         | _ => inl (OSError EREMOTEIO)
         end).

(** The device at address 5 has nothing to send (status 255); no other
    address answers. *)
Definition bus_no_data_at_5 : OS :=
  bus (fun a =>
         match a with
         | Some 5 => inr [xff; x00; x00]
         | _ => inl (OSError EREMOTEIO)
         end).

(** The devices at 99 and 100 answer a read with a reading; the device at
    address 5 is idle and answers that it has nothing to send (status 255);
    elsewhere the read fails with an I/O error. *)
Definition bus_99_100_idle_5 : OS :=
  bus (fun a =>
         match a with
         | Some 99 => inr (frame_of "?I,pH,1.0")
         | Some 100 => inr (frame_of "7.00")
         | Some 5 => inr [xff; x00; x00]
         | _ => inl (OSError EREMOTEIO)
         end).

(** One device, which answers every read with the same frame. *)
Definition bus_answering (frame : bytes) : OS := bus (fun _ => inr frame).

(** A bus that refuses every write. *)
Definition bus_write_fault : OS :=
  {| ioctl_raises := fun _ _ _ _ => None;
     write_raises := fun _ _ => Some (OSError EREMOTEIO);
     read_returns := fun _ _ => inl (OSError EREMOTEIO) |}.

(** A bus on which the bind of the write stream is refused. *)
Definition bus_bind_fault : OS :=
  {| ioctl_raises := fun _ f _ _ =>
       match f with
       | file_read => None
       | file_write => Some (OSError 16)
       end;
     write_raises := fun _ _ => None;
     read_returns := fun _ _ => inl (OSError EREMOTEIO) |}.

(** The channel just after [AtlasI2c()] on a bus that accepted both binds. *)
Definition opened (address : Z) : state :=
  {| current_addr := address;
     calls := [Ioctl file_write 0x703 address; Ioctl file_read 0x703 address] |}.

(** ** Notions used to state the properties *)

(** The value of a byte, as iteration yields it. *)
Definition byte_val (b : byte) : Z := Z.of_N (Byte.to_N b).

(** The first byte of a frame that is not null, if there is one. *)
Definition first_non_null (res : bytes) : option byte :=
  find (fun b => negb (Byte.eqb b x00)) res.

(** Whether selecting address [i] and reading a frame succeeds from [s]. *)
Definition answers (os : OS) (s : state) (i : Z) : bool :=
  match (set_i2c_address os i ;; read_bytes os 31) s with
  | (_, inr _) => true
  | (_, inl _) => false
  end.

(** The state in which the sweep started in [s] reaches address [k]. *)
Definition state_at (os : OS) (s : state) (k : nat) : state :=
  fst (for_each (range 0 k) (probe os) [] s).

(** ** The rest of the module *)

(** [io.open(path, mode, buffering=0)]: what it raises, if anything. *)
Definition opener : Type := str -> string -> option exn.

(** [AtlasI2c.__init__]: records the address, opens the bus device twice and
    binds both streams.  The calls of the new object start empty. *)
Definition init (io_open : opener) (os : OS) (address bus : Z)
  : state * (exn + unit) :=
  let s := {| current_addr := address; calls := [] |} in
  let path := lit "/dev/i2c-" ++ str_of_int bus in
  match io_open path "r+b"%string with
  | Some e => (s, inl e)
  | None =>
      match io_open path "wb"%string with
      | Some e => (s, inl e)
      | None => set_i2c_address os address s
      end
  end.

(** [s.split(sep)] for a separator of one character. *)
Fixpoint split (sep : N) (s : str) : list str :=
  match s with
  | [] => [[]]
  | c :: s' =>
      if (c =? sep)%N then [] :: split sep s'
      else match split sep s' with
           | field :: fields => (c :: field) :: fields
           | [] => [[c]]
           end
  end.

(** What may leave one turn of the loop of [main]: an exception of the
    channel, or the [IndexError] of [split(',')[1]]. *)
Inductive main_exn : Type :=
| Raised (e : exn)
| IndexError.

Definition Main (A : Type) : Type := state -> state * (main_exn + A).

Definition escalate {A} (m : M A) : Main A :=
  fun s =>
    match m s with
    | (s', inr a) => (s', inr a)
    | (s', inl e) => (s', inl (Raised e))
    end.

Section MainLoop.

Variable to_upper_full : N -> list N.

Variable os : OS.

(** [int(text)] *)
Variable int_of_str : str -> exn + Z.

(** The POLL branch of the loop (lines 161-186), which polls until it is
    interrupted from the keyboard. *)
Variable poll : str -> Main (list str).

(** One turn of the [while True] loop of [main] on the line [myinput];
    the result is the lines printed. *)
Definition main_turn (myinput : str) : Main (list str) :=
  let myinput_upper := upper to_upper_full myinput in
  if startswith myinput_upper (lit "LIST_ADDR") then
    fun s =>
      match list_i2c_devices os s with
      | (s', inr devices) => (s', inr (map str_of_int devices))
      | (s', inl e) => (s', inl (Raised e))
      end
  else if startswith myinput_upper (lit "ADDRESS") then
    fun s =>
      match nth_error (split 44 myinput) 1 with
      | None => (s, inl IndexError)
      | Some field =>
          match int_of_str field with
          | inl e => (s, inl (Raised e))
          | inr addr =>
              match set_i2c_address os addr s with
              | (s', inr _) =>
                  (s', inr [lit "I2C address set to " ++ str_of_int addr])
              | (s', inl e) => (s', inl (Raised e))
              end
          end
      end
  else if startswith myinput_upper (lit "POLL") then
    poll myinput
  else
    fun s =>
      match query to_upper_full os myinput s with
      | (s', inr text) => (s', inr [text])
      | (s', inl e) =>
          if is_IOError e then (s', inr [lit "Query failed"])
          else (s', inl (Raised e))
      end.

End MainLoop.

(** ** Further notions *)

Definition stream_eqb (f g : stream) : bool :=
  match f, g with
  | file_read, file_read | file_write, file_write => true
  | _, _ => false
  end.

(** The address a stream is bound to: the one of its last accepted
    [I2C_SLAVE] request. *)
Fixpoint bound (os : OS) (f : stream) (tr : list call) : option Z :=
  match tr with
  | [] => None
  | Ioctl g request a :: tr' =>
      if stream_eqb f g && (request =? 0x703) then
        match ioctl_raises os tr' g request a with
        | None => Some a
        | Some _ => bound os f tr'
        end
      else bound os f tr'
  | _ :: tr' => bound os f tr'
  end.

(** Both streams are bound to the recorded address. *)
Definition in_sync (os : OS) (s : state) : Prop :=
  bound os file_read (calls s) = Some (current_addr s)
  /\ bound os file_write (calls s) = Some (current_addr s).

Definition is_ioctl (c : call) : bool :=
  match c with
  | Ioctl _ _ _ => true
  | _ => false
  end.

(** A call the sweep may make from a channel recorded at [orig]. *)
Definition sweep_call (orig : Z) (c : call) : bool :=
  match c with
  | Ioctl _ request a =>
      (request =? 0x703) && (((0 <=? a) && (a <? 128)) || (a =? orig))
  | Read size => size =? 31
  | _ => false
  end.

(** A bus on which nothing can be opened or bound. *)
Definition no_bus : opener := fun _ _ => Some (OSError 2).

Definition any_bus : opener := fun _ _ => None.

(** A bus that accepts everything but the bind of the write stream to
    [busy], and answers no read. *)
Definition bus_busy_at (busy : Z) : OS :=
  {| ioctl_raises := fun _ f _ a =>
       match f with
       | file_write => if a =? busy then Some (OSError 16) else None
       | file_read => None
       end;
     write_raises := fun _ _ => None;
     read_returns := fun _ _ => inl (OSError EREMOTEIO) |}.

Fixpoint digits_value (acc : Z) (s : str) : option Z :=
  match s with
  | [] => Some acc
  | c :: s' =>
      if ((48 <=? c) && (c <=? 57))%N
      then digits_value (10 * acc + Z.of_N (c - 48)) s'
      else None
  end.

(** [int(text)] on the texts the examples use: a non-empty run of ASCII
    digits is read in base ten, anything else is refused. *)
Definition int_of_digits (s : str) : exn + Z :=
  match s with
  | [] => inl ValueError
  | _ =>
      match digits_value 0 s with
      | Some n => inr n
      | None => inl ValueError
      end
  end.

(** A POLL branch that does nothing, for the turns that do not take it. *)
Definition no_poll : str -> Main (list str) := fun _ s => (s, inr []).

(** * Properties *)

(** ** Bytes and bit 7 *)

Lemma byte_val_range (b : byte) : 0 <= byte_val b < 256.
Proof.
  unfold byte_val. pose proof (Byte.to_N_bounded b). lia.
Qed.

Lemma byte_val_inj (a b : byte) : byte_val a = byte_val b -> a = b.
Proof.
  unfold byte_val. intros H. apply N2Z.inj in H.
  pose proof (Byte.of_to_N a) as Ha. rewrite H, Byte.of_to_N in Ha.
  congruence.
Qed.

(** [x & ~0x80] keeps the low seven bits of a byte value. *)
Lemma clear_msb_mod (x : Z) :
  0 <= x < 256 -> Z.land x (Z.lnot 0x80) = x mod 2 ^ 7.
Proof.
  intros Hx. apply Z.bits_inj'. intros n Hn.
  rewrite Z.land_spec, Z.lnot_spec by assumption.
  change 0x80 with (2 ^ 7). rewrite Z.pow2_bits_eqb by lia.
  destruct (Z.ltb_spec n 7) as [Hlt | Hge].
  - rewrite Z.mod_pow2_bits_low by assumption.
    replace (7 =? n) with false by (symmetry; apply Z.eqb_neq; lia).
    apply andb_true_r.
  - rewrite Z.mod_pow2_bits_high by lia.
    destruct (Z.eqb_spec 7 n) as [E | Hne].
    + apply andb_false_r.
    + replace (Z.testbit x n) with false; [reflexivity |].
      symmetry. apply Z.testbit_false; [assumption |].
      rewrite Z.div_small; [reflexivity |].
      split; [lia |].
      apply Z.lt_le_trans with (2 ^ 8); [simpl; lia |].
      apply Z.pow_le_mono_r; lia.
Qed.

Lemma clear_msb_range (x : Z) :
  0 <= x < 256 -> 0 <= Z.land x (Z.lnot 0x80) < 128.
Proof.
  intros Hx. rewrite clear_msb_mod by assumption.
  change (2 ^ 7) with 128. apply Z.mod_pos_bound. lia.
Qed.

Lemma clear_msb_bit7 (x : Z) : Z.land (Z.land x (Z.lnot 0x80)) 0x80 = 0.
Proof.
  rewrite <- Z.ldiff_land. apply Z.land_ldiff.
Qed.

Lemma bytes_of_ints_inv (l : list Z) (bs : bytes) :
  bytes_of_ints l = inr bs -> map byte_val bs = l.
Proof.
  revert bs. induction l as [| x l IH]; intros bs H; simpl in H.
  - injection H as <-. reflexivity.
  - destruct ((0 <=? x) && (x <? 256)) eqn:Hr; [| discriminate].
    destruct (Byte.of_N (Z.to_N x)) as [b |] eqn:Hb.
    + destruct (bytes_of_ints l) as [e | bs'] eqn:Hl; [discriminate |].
      injection H as <-. simpl. rewrite (IH bs' eq_refl).
      apply Byte.to_of_N in Hb. unfold byte_val. rewrite Hb.
      apply andb_prop in Hr as [H0 _]. apply Z.leb_le in H0.
      rewrite Z2N.id by assumption. reflexivity.
    + destruct (bytes_of_ints l); discriminate.
Qed.

Lemma bytes_of_ints_total (l : list Z) :
  Forall (fun x => 0 <= x < 256) l -> exists bs, bytes_of_ints l = inr bs.
Proof.
  induction 1 as [| x l Hx _ [bs IH]]; simpl.
  - now exists [].
  - replace ((0 <=? x) && (x <? 256)) with true
      by (symmetry; apply andb_true_intro; split;
          [apply Z.leb_le | apply Z.ltb_lt]; lia).
    destruct (Byte.of_N (Z.to_N x)) as [b |] eqn:Hb.
    + rewrite IH. now exists (b :: bs).
    + exfalso. pose proof (Byte.to_of_N_option_map (Z.to_N x)) as Hm.
      rewrite Hb in Hm. simpl in Hm.
      destruct (N.leb_spec (Z.to_N x) 255); [discriminate | lia].
Qed.

(** ** The frame parser *)

Lemma iter_bytes_val (res : bytes) : iter_bytes res = map byte_val res.
Proof. reflexivity. Qed.

Lemma byte_val_null (b : byte) : (byte_val b =? 0) = Byte.eqb b x00.
Proof.
  destruct (Z.eqb_spec (byte_val b) 0) as [H | H].
  - symmetry. apply Byte.byte_dec_lb. apply byte_val_inj. exact H.
  - destruct (Byte.eqb b x00) eqn:E; [| reflexivity].
    apply Byte.byte_dec_bl in E. subst b. now elim H.
Qed.

(** The generator of line 77, on a frame whose first non-null byte is [b]. *)
Lemma strip_nulls_some (res : bytes) (b : byte) :
  first_non_null res = Some b ->
  exists rest,
    filter (fun x => negb (x =? 0)) (iter_bytes res) = byte_val b :: rest
    /\ Forall (fun x => 0 <= x < 256) rest.
Proof.
  unfold first_non_null. rewrite iter_bytes_val.
  induction res as [| a res IH]; cbn [find map filter]; [discriminate |].
  rewrite byte_val_null.
  destruct (negb (Byte.eqb a x00)) eqn:E; intros H.
  - injection H as <-. eexists. split; [reflexivity |].
    clear. induction res as [| c res IH]; cbn [map filter].
    + constructor.
    + destruct (negb (byte_val c =? 0)); [constructor |]; try exact IH.
      apply byte_val_range.
  - exact (IH H).
Qed.

Lemma strip_nulls_none (res : bytes) :
  first_non_null res = None ->
  filter (fun x => negb (x =? 0)) (iter_bytes res) = [].
Proof.
  unfold first_non_null. rewrite iter_bytes_val.
  induction res as [| a res IH]; cbn [find map filter]; [reflexivity |].
  rewrite byte_val_null.
  destruct (negb (Byte.eqb a x00)); [discriminate | exact IH].
Qed.

Lemma first_non_null_none (res : bytes) :
  first_non_null res = None <-> (forall b, In b res -> b = x00).
Proof.
  unfold first_non_null. split.
  - intros H b Hb. pose proof (find_none _ _ H b Hb) as E. simpl in E.
    apply negb_false_iff in E. now apply Byte.byte_dec_bl.
  - intros H. induction res as [| a res IH]; simpl; [reflexivity |].
    rewrite (H a (or_introl eq_refl)). simpl.
    apply IH. intros b Hb. apply H. now right.
Qed.

Lemma parse_response_empty (res : bytes) :
  first_non_null res = None -> parse_response res = inl StopIteration.
Proof.
  intros H. unfold parse_response. now rewrite (strip_nulls_none _ H).
Qed.

Lemma parse_response_error (res : bytes) (b : byte) :
  first_non_null res = Some b -> b <> x01 ->
  parse_response res
  = inl (Exception (lit "Error " ++ str_of_int (byte_val b))).
Proof.
  intros H Hb. unfold parse_response.
  destruct (strip_nulls_some _ _ H) as [rest [-> _]].
  destruct (Z.eqb_spec (byte_val b) 1) as [E | E]; [| reflexivity].
  elim Hb. apply byte_val_inj. exact E.
Qed.

Lemma parse_response_success (res : bytes) :
  first_non_null res = Some x01 ->
  exists payload, parse_response res = inr payload.
Proof.
  intros H. unfold parse_response.
  destruct (strip_nulls_some _ _ H) as [rest [-> Hrest]].
  change (byte_val x01 =? 1) with true. cbv iota.
  apply bytes_of_ints_total.
  induction Hrest as [| x l Hx _ IH]; simpl; constructor; try exact IH.
  pose proof (clear_msb_range x Hx). lia.
Qed.

(** A frame is accepted only when its first non-null byte is 1, and then
    every byte handed back has bit 7 clear and is below 128. *)
Lemma parse_response_inv (res payload : bytes) :
  parse_response res = inr payload ->
  first_non_null res = Some x01
  /\ Forall (fun b => Z.land (byte_val b) 0x80 = 0 /\ byte_val b < 128) payload.
Proof.
  intros H. destruct (first_non_null res) as [b |] eqn:F.
  - destruct (Byte.byte_eq_dec b x01) as [-> | Hb].
    + split; [reflexivity |].
      unfold parse_response in H.
      destruct (strip_nulls_some _ _ F) as [rest [E Hrest]].
      rewrite E in H. change (byte_val x01 =? 1) with true in H. cbv iota in H.
      apply bytes_of_ints_inv in H.
      clear E F. revert rest H Hrest.
      induction payload as [| p payload IH]; intros rest H Hrest;
        [constructor |].
      destruct rest as [| x rest]; [discriminate |].
      simpl in H. injection H as Hp Hrest'.
      inversion Hrest as [| ? ? Hx Hrest'']; subst.
      constructor; [| exact (IH _ Hrest' Hrest'')].
      rewrite Hp. split; [apply clear_msb_bit7 |].
      apply (clear_msb_range x Hx).
    + rewrite (parse_response_error _ _ F Hb) in H. discriminate.
  - rewrite (parse_response_empty _ F) in H. discriminate.
Qed.

(** ** UTF-8 on the strings and payloads of the channel *)

Lemma byte_of_N_to_N (b : byte) : byte_of_N (Byte.to_N b) = b.
Proof. unfold byte_of_N. now rewrite Byte.of_to_N. Qed.

Lemma to_N_byte_of_N (n : N) : (n <= 255)%N -> Byte.to_N (byte_of_N n) = n.
Proof.
  intros Hn. unfold byte_of_N.
  pose proof (Byte.to_of_N_option_map n) as Hm.
  destruct (Byte.of_N n) as [b |] eqn:Hb.
  - now apply Byte.to_of_N.
  - simpl in Hm. destruct (N.leb_spec n 255); [discriminate | lia].
Qed.

(** Bytes below 128 decode to themselves. *)
Lemma decode_utf8_N_ascii (l : list N) :
  Forall (fun c => (c < 128)%N) l -> decode_utf8_N l = Some l.
Proof.
  induction 1 as [| c l Hc _ IH]; [reflexivity |].
  cbn [decode_utf8_N]. change 0x80%N with 128%N.
  apply N.ltb_lt in Hc. rewrite Hc, IH. reflexivity.
Qed.

Lemma decode_utf8_ascii (b : bytes) :
  Forall (fun x => byte_val x < 128) b ->
  decode_utf8 b = inr (map Byte.to_N b).
Proof.
  intros H. unfold decode_utf8. rewrite decode_utf8_N_ascii; [reflexivity |].
  induction H as [| x l Hx _ IH]; simpl; constructor; try exact IH.
  unfold byte_val in Hx. lia.
Qed.

(** The terminator is encoded as one null byte after the rest. *)
Lemma encode_utf8_null (s : str) :
  encode_utf8 (s ++ [0%N])
  = match encode_utf8 s with
    | inr data => inr (data ++ [x00])
    | inl e => inl e
    end.
Proof.
  induction s as [| c s IH]; [reflexivity |].
  cbn [app encode_utf8]. rewrite IH.
  destruct (encode_char c) as [b |]; [| reflexivity].
  destruct (encode_utf8 s) as [e | data]; [reflexivity |].
  now rewrite app_assoc.
Qed.

Lemma encode_utf8_ascii (s : str) :
  Forall (fun c => (c < 128)%N) s -> encode_utf8 s = inr (map byte_of_N s).
Proof.
  induction 1 as [| c s Hc _ IH]; [reflexivity |].
  cbn [encode_utf8 map]. rewrite IH. unfold encode_char.
  change 0x80%N with 128%N. apply N.ltb_lt in Hc. rewrite Hc. reflexivity.
Qed.

Lemma lit_ascii (text : string) :
  Forall (fun c => (c < 256)%N) (lit text).
Proof.
  unfold lit. induction (list_ascii_of_string text) as [| a l IH]; simpl;
    constructor; try exact IH.
  apply N_ascii_bounded.
Qed.

(** ** Running the methods *)

Section Facts.

Variable to_upper_full : N -> list N.

Variable os : OS.

Lemma read_bytes_run (n : Z) (s : state) :
  read_bytes os n s
  = (record_call (Read n) s,
     match read_returns os (calls s) n with
     | inr res => parse_response res
     | inl e => inl e
     end).
Proof.
  unfold read_bytes, bind, file_read_read, lift.
  destruct (read_returns os (calls s) n); reflexivity.
Qed.

Lemma read_run (n : Z) (s : state) :
  read os n s
  = (fst (read_bytes os n s),
     match snd (read_bytes os n s) with
     | inr b => decode_utf8 b
     | inl e => inl e
     end).
Proof.
  unfold read, bind, lift.
  destruct (read_bytes os n s) as [s' [e | b]]; reflexivity.
Qed.

Lemma write_run (string : str) (s : state) :
  write os string s
  = match encode_utf8 (string ++ [0%N]) with
    | inr data =>
        (record_call (Write data) s,
         match write_raises os (calls s) data with
         | Some e => inl e
         | None => inr tt
         end)
    | inl e => (s, inl e)
    end.
Proof.
  unfold write, bind, lift, file_write_write.
  destruct (encode_utf8 (string ++ [0%N])); reflexivity.
Qed.

(** A query whose write went through: the three branches of lines 100-107. *)
Lemma query_bytes_run (string : str) (s : state) (data : bytes) :
  encode_utf8 (string ++ [0%N]) = inr data ->
  write_raises os (calls s) data = None ->
  query_bytes to_upper_full os string s
  = let s1 := record_call (Write data) s in
    let string_upper := upper to_upper_full string in
    if startswith string_upper (lit "R") || startswith string_upper (lit "CAL")
    then read_bytes os 31 (record_call (Sleep long_timeout) s1)
    else if startswith string_upper (lit "SLEEP")
         then (s1, inl (Exception (lit "sleep mode")))
         else read_bytes os 31 (record_call (Sleep short_timeout) s1).
Proof.
  intros He Hw. unfold query_bytes. unfold bind at 1.
  rewrite write_run, He, Hw. cbv zeta.
  destruct (startswith _ (lit "R") || startswith _ (lit "CAL"));
    [reflexivity |].
  destruct (startswith _ (lit "SLEEP")); reflexivity.
Qed.

Lemma query_run (string : str) (s : state) :
  query to_upper_full os string s
  = (fst (query_bytes to_upper_full os string s),
     match snd (query_bytes to_upper_full os string s) with
     | inr b => decode_utf8 b
     | inl e => inl e
     end).
Proof.
  unfold query, bind, lift.
  destruct (query_bytes to_upper_full os string s) as [s' [e | b]];
    reflexivity.
Qed.

(** A command cannot begin with S and with R or C. *)
Lemma startswith_sleep_only (u : str) :
  startswith u (lit "SLEEP") = true ->
  startswith u (lit "R") || startswith u (lit "CAL") = false.
Proof.
  destruct u as [| c u]; [discriminate |].
  cbn [startswith lit map list_ascii_of_string]. intros H.
  apply andb_prop in H as [Hc _]. apply N.eqb_eq in Hc. subst c.
  reflexivity.
Qed.

Lemma set_i2c_address_run (addr : Z) (s : state) :
  set_i2c_address os addr s
  = match ioctl_raises os (calls s) file_read 0x703 addr with
    | Some e => (record_call (Ioctl file_read 0x703 addr) s, inl e)
    | None =>
        let s1 := record_call (Ioctl file_read 0x703 addr) s in
        match ioctl_raises os (calls s1) file_write 0x703 addr with
        | Some e => (record_call (Ioctl file_write 0x703 addr) s1, inl e)
        | None =>
            ({| current_addr := addr;
                calls := Ioctl file_write 0x703 addr :: calls s1 |}, inr tt)
        end
    end.
Proof.
  unfold set_i2c_address, bind, ioctl, set_current_addr.
  destruct (ioctl_raises os (calls s) file_read 1795 addr); [reflexivity |].
  cbn [calls record_call].
  destruct (ioctl_raises os _ file_write 1795 addr); reflexivity.
Qed.

Lemma set_i2c_address_recorded (addr : Z) (s s' : state) (u : unit) :
  set_i2c_address os addr s = (s', inr u) -> current_addr s' = addr.
Proof.
  rewrite set_i2c_address_run.
  destruct (ioctl_raises os (calls s) file_read 1795 addr);
    [discriminate |].
  cbv zeta. destruct (ioctl_raises os _ file_write 1795 addr);
    [discriminate |].
  intros H. now injection H as <- _.
Qed.

End Facts.

(** ** Frames, commands and addresses *)

Section Protocol.

Variable to_upper_full : N -> list N.

Variable os : OS.

(** C2.  When [read_bytes] returns a payload, the frame read had 1 as its
    first non-null byte, and every byte [b] of the payload satisfies
    [b & 0x80 == 0]. *)
Theorem read_bytes_payload_bit7_clear
  (num_of_bytes : Z) (s s' : state) (payload : bytes) :
  read_bytes os num_of_bytes s = (s', inr payload) ->
  (exists res,
      read_returns os (calls s) num_of_bytes = inr res
      /\ first_non_null res = Some x01)
  /\ Forall (fun b => Z.land (byte_val b) 0x80 = 0) payload.
Proof.
  rewrite read_bytes_run. intros H. injection H as _ H.
  destruct (read_returns os (calls s) num_of_bytes) as [e | res];
    [discriminate |].
  apply parse_response_inv in H as [H1 Hp].
  split; [now exists res |].
  eapply Forall_impl; [| exact Hp]. now intros b [Hb _].
Qed.

(** C3.  On a frame whose first non-null byte [b] is not 1, [read_bytes] and
    [read] raise [Exception("Error <b>")] and return nothing; so does a
    query that reached its read and was given that frame. *)
Theorem non_success_status_raises (res : bytes) (b : byte) :
  first_non_null res = Some b ->
  b <> x01 ->
  let error := Exception (lit "Error " ++ str_of_int (byte_val b)) in
  (forall num_of_bytes s,
      read_returns os (calls s) num_of_bytes = inr res ->
      read_bytes os num_of_bytes s
      = (record_call (Read num_of_bytes) s, inl error)
      /\ read os num_of_bytes s
         = (record_call (Read num_of_bytes) s, inl error))
  /\ (forall string s data tr,
         encode_utf8 (string ++ [0%N]) = inr data ->
         write_raises os (calls s) data = None ->
         startswith (upper to_upper_full string) (lit "SLEEP") = false ->
         calls (fst (query to_upper_full os string s)) = Read 31 :: tr ->
         read_returns os tr 31 = inr res ->
         snd (query_bytes to_upper_full os string s) = inl error
         /\ snd (query to_upper_full os string s) = inl error).
Proof.
  intros F Hb error. split.
  - intros n s Hr.
    assert (E : read_bytes os n s = (record_call (Read n) s, inl error)).
    { rewrite read_bytes_run, Hr.
      now rewrite (parse_response_error _ _ F Hb). }
    split; [exact E |]. now rewrite read_run, E.
  - intros string s data tr He Hw Hs Hc Hr.
    rewrite query_run in Hc |- *. cbn [fst snd] in Hc |- *.
    rewrite (query_bytes_run to_upper_full os string s data He Hw) in Hc |- *.
    cbv zeta in Hc |- *. rewrite Hs in Hc |- *.
    assert (G : forall s2, calls (fst (read_bytes os 31 s2)) = Read 31 :: tr ->
                           snd (read_bytes os 31 s2) = inl error).
    { intros s2. rewrite read_bytes_run. cbn [fst snd calls record_call].
      intros H2. injection H2 as H2. rewrite H2, Hr.
      apply (parse_response_error _ _ F Hb). }
    destruct (startswith _ (lit "R") || startswith _ (lit "CAL"));
      rewrite (G _ Hc); split; reflexivity.
Qed.

(** C4.  A frame with no non-null byte (empty, or null bytes only) makes
    [read_bytes] and [read] raise [StopIteration]; no payload comes back. *)
Theorem all_null_frame_raises (num_of_bytes : Z) (s : state) (res : bytes) :
  read_returns os (calls s) num_of_bytes = inr res ->
  (forall b, In b res -> b = x00) ->
  read_bytes os num_of_bytes s
  = (record_call (Read num_of_bytes) s, inl StopIteration)
  /\ read os num_of_bytes s
     = (record_call (Read num_of_bytes) s, inl StopIteration).
Proof.
  intros Hr Hz. apply first_non_null_none in Hz.
  assert (E : read_bytes os num_of_bytes s
              = (record_call (Read num_of_bytes) s, inl StopIteration)).
  { now rewrite read_bytes_run, Hr, (parse_response_empty _ Hz). }
  split; [exact E |]. now rewrite read_run, E.
Qed.

(** C10.  Whenever [read_bytes] (or [query_bytes]) returns a payload, the
    decoding done by [read] (or [query]) succeeds: the text is the payload
    read byte for byte, and no [UnicodeDecodeError] is raised. *)
Theorem decode_never_fails_on_payload :
  (forall num_of_bytes s s' payload,
      read_bytes os num_of_bytes s = (s', inr payload) ->
      decode_utf8 payload = inr (map Byte.to_N payload)
      /\ read os num_of_bytes s = (s', inr (map Byte.to_N payload)))
  /\ (forall string s s' payload,
         query_bytes to_upper_full os string s = (s', inr payload) ->
         decode_utf8 payload = inr (map Byte.to_N payload)
         /\ query to_upper_full os string s
            = (s', inr (map Byte.to_N payload))).
Proof.
  assert (P : forall n s s' payload,
             read_bytes os n s = (s', inr payload) ->
             decode_utf8 payload = inr (map Byte.to_N payload)).
  { intros n s s' payload H. rewrite read_bytes_run in H.
    injection H as _ H.
    destruct (read_returns os (calls s) n) as [e | res]; [discriminate |].
    apply parse_response_inv in H as [_ Hp].
    apply decode_utf8_ascii.
    eapply Forall_impl; [| exact Hp]. now intros b [_ Hb]. }
  split.
  - intros n s s' payload H. pose proof (P _ _ _ _ H) as D.
    split; [exact D |]. now rewrite read_run, H; cbn [fst snd]; rewrite D.
  - intros string s s' payload H.
    assert (D : decode_utf8 payload = inr (map Byte.to_N payload)).
    { revert H. unfold query_bytes, bind.
      destruct (write os string s) as [s1 [e | u]]; [discriminate |].
      destruct (startswith _ (lit "R") || startswith _ (lit "CAL")).
      - cbn [time_sleep]. apply P.
      - destruct (startswith _ (lit "SLEEP")); [discriminate |].
        cbn [time_sleep]. apply P. }
    split; [exact D |]. now rewrite query_run, H; cbn [fst snd]; rewrite D.
Qed.

(** C8.  [write] hands to the write stream the UTF-8 bytes of the command
    followed by one null byte, whatever the stream then does with them; for
    a command of ASCII characters these bytes are its characters. *)
Theorem write_appends_one_null (string : str) (s : state) (data : bytes) :
  encode_utf8 string = inr data ->
  fst (write os string s) = record_call (Write (data ++ [x00])) s
  /\ (Forall (fun c => (c < 128)%N) string -> map Byte.to_N data = string).
Proof.
  intros He. split.
  - now rewrite write_run, encode_utf8_null, He.
  - intros Ha. rewrite (encode_utf8_ascii _ Ha) in He. injection He as <-.
    induction Ha as [| c l Hc _ IH]; [reflexivity |].
    cbn [map]. rewrite IH, to_N_byte_of_N by lia. reflexivity.
Qed.

(** C9.  [set_i2c_address] either binds both streams and then records the
    address, or raises what the refused bind raised and leaves the recorded
    address as it was. *)
Theorem set_i2c_address_records_after_binds (addr : Z) (s : state) :
  let s1 := record_call (Ioctl file_read 0x703 addr) s in
  match set_i2c_address os addr s with
  | (s', inr _) =>
      ioctl_raises os (calls s) file_read 0x703 addr = None
      /\ ioctl_raises os (calls s1) file_write 0x703 addr = None
      /\ current_addr s' = addr
  | (s', inl e) =>
      (ioctl_raises os (calls s) file_read 0x703 addr = Some e
       \/ ioctl_raises os (calls s1) file_write 0x703 addr = Some e)
      /\ current_addr s' = current_addr s
  end.
Proof.
  cbv zeta. rewrite set_i2c_address_run.
  destruct (ioctl_raises os (calls s) file_read 1795 addr) as [e |] eqn:E1.
  - now split; [left |].
  - cbv zeta.
    destruct (ioctl_raises os _ file_write 1795 addr) as [e |] eqn:E2.
    + now split; [right |].
    + now repeat split.
Qed.

(** C5.  A query whose write went through sleeps 1.5 s when the upper-cased
    command begins with R or CAL, and 0.5 s when it begins with none of R,
    CAL and SLEEP, and then reads 31 bytes. *)
Theorem query_timeout_class (string : str) (s : state) (data : bytes) :
  encode_utf8 (string ++ [0%N]) = inr data ->
  write_raises os (calls s) data = None ->
  let string_upper := upper to_upper_full string in
  let after := calls (fst (query to_upper_full os string s)) in
  (startswith string_upper (lit "R") = true
   \/ startswith string_upper (lit "CAL") = true ->
   after = Read 31 :: Sleep (3 # 2) :: Write data :: calls s)
  /\ (startswith string_upper (lit "R") = false ->
      startswith string_upper (lit "CAL") = false ->
      startswith string_upper (lit "SLEEP") = false ->
      after = Read 31 :: Sleep (1 # 2) :: Write data :: calls s).
Proof.
  intros He Hw string_upper after. subst after.
  rewrite query_run. cbn [fst].
  rewrite (query_bytes_run to_upper_full os string s data He Hw).
  cbv zeta. fold string_upper. split.
  - intros H. replace (startswith string_upper (lit "R")
                       || startswith string_upper (lit "CAL")) with true
      by (symmetry; apply orb_true_iff; exact H).
    now rewrite read_bytes_run.
  - intros -> -> ->. cbn [orb]. now rewrite read_bytes_run.
Qed.

(** C1, as the code has it.  A query whose upper-cased command begins with
    SLEEP first writes the command and its null terminator; when that write
    went through it raises [Exception("sleep mode")] without sleeping and
    without reading. *)
Theorem sleep_command_written_then_rejected
  (string : str) (s : state) (data : bytes) :
  startswith (upper to_upper_full string) (lit "SLEEP") = true ->
  encode_utf8 (string ++ [0%N]) = inr data ->
  write_raises os (calls s) data = None ->
  query_bytes to_upper_full os string s
  = (record_call (Write data) s, inl (Exception (lit "sleep mode")))
  /\ query to_upper_full os string s
     = (record_call (Write data) s, inl (Exception (lit "sleep mode"))).
Proof.
  intros Hs He Hw.
  assert (E : query_bytes to_upper_full os string s
              = (record_call (Write data) s,
                 inl (Exception (lit "sleep mode")))).
  { rewrite (query_bytes_run to_upper_full os string s data He Hw).
    cbv zeta. now rewrite (startswith_sleep_only _ Hs), Hs. }
  split; [exact E |]. now rewrite query_run, E.
Qed.

End Protocol.

(** ** The address sweep *)

Lemma range_S (lo : Z) (k : nat) :
  range lo (S k) = range lo k ++ [lo + Z.of_nat k].
Proof.
  unfold range. now rewrite seq_S, map_app.
Qed.

Lemma in_range_iff (i : Z) (n : nat) :
  In i (range 0 n) <-> 0 <= i < Z.of_nat n.
Proof.
  unfold range. rewrite in_map_iff. split.
  - intros [k [<- Hk]]. apply in_seq in Hk. lia.
  - intros Hi. exists (Z.to_nat i). split; [lia |]. apply in_seq. lia.
Qed.

Lemma range_sorted (lo : Z) (n : nat) : StronglySorted Z.lt (range lo n).
Proof.
  unfold range. generalize 0%nat.
  induction n as [| n IH]; intros a; cbn [seq map]; constructor.
  - apply IH.
  - apply Forall_forall. intros x Hx.
    apply in_map_iff in Hx as [k [<- Hk]]. apply in_seq in Hk. lia.
Qed.

Lemma filter_sorted (f : Z -> bool) (l : list Z) :
  StronglySorted Z.lt l -> StronglySorted Z.lt (filter f l).
Proof.
  induction 1 as [| a l _ IH Ha]; cbn [filter]; [constructor |].
  destruct (f a); [| exact IH]. constructor; [exact IH |].
  apply Forall_forall. intros x Hx. apply filter_In in Hx as [Hx _].
  revert x Hx. now apply Forall_forall.
Qed.

Lemma for_each_app {A} (l1 l2 : list Z) (body : Z -> A -> M A)
  (acc : A) (s : state) :
  for_each (l1 ++ l2) body acc s
  = match for_each l1 body acc s with
    | (s', inr acc') => for_each l2 body acc' s'
    | (s', inl e) => (s', inl e)
    end.
Proof.
  revert acc s. induction l1 as [| i l1 IH]; intros acc s; [reflexivity |].
  cbn [app for_each]. unfold bind.
  destruct (body i acc s) as [s1 [e | acc1]]; [reflexivity | apply IH].
Qed.

Section Sweep.

Variable os : OS.

(** One turn of the loop: an answer appends the address, an I/O failure
    changes nothing, any other exception leaves the loop. *)
Lemma probe_run (i : Z) (i2c_devices : list Z) (s : state) :
  probe os i i2c_devices s
  = match (set_i2c_address os i ;; read_bytes os 31) s with
    | (s', inr _) => (s', inr (i2c_devices ++ [i]))
    | (s', inl e) =>
        if is_IOError e then (s', inr i2c_devices) else (s', inl e)
    end.
Proof.
  unfold probe, try_except_IOError, bind, ret.
  destruct (set_i2c_address os i s) as [s1 [e | u]]; [reflexivity |].
  destruct (read_bytes os 31 s1) as [s2 [e | b]]; reflexivity.
Qed.

Lemma probe_state (i : Z) (acc acc' : list Z) (s : state) :
  fst (probe os i acc s) = fst (probe os i acc' s).
Proof.
  rewrite !probe_run.
  destruct ((set_i2c_address os i ;; read_bytes os 31) s) as [s' [e | b]];
    [| reflexivity].
  destruct (is_IOError e); reflexivity.
Qed.

Lemma for_each_probe_state (l : list Z) (acc : list Z) (s : state) :
  for_each l (probe os) acc s
  = (fst (for_each l (probe os) acc s), snd (for_each l (probe os) acc s)).
Proof. apply surjective_pairing. Qed.

(** What the loop has collected when it is through [range(0, k)]. *)
Lemma sweep_collects (s : state) (k : nat) (s' : state) (devs : list Z) :
  for_each (range 0 k) (probe os) [] s = (s', inr devs) ->
  s' = state_at os s k
  /\ devs = filter (fun i => answers os (state_at os s (Z.to_nat i)) i)
                   (range 0 k).
Proof.
  revert s' devs. induction k as [| k IH]; intros s' devs H.
  - injection H as <- <-. split; reflexivity.
  - split; [unfold state_at; now rewrite H |].
    rewrite range_S, for_each_app in H.
    destruct (for_each (range 0 k) (probe os) [] s) as [sk [e | dk]] eqn:E;
      [discriminate |].
    destruct (IH sk dk eq_refl) as [Hs Hd].
    rewrite range_S, filter_app. cbn [filter]. rewrite Z.add_0_l, Nat2Z.id.
    rewrite <- Hs, <- Hd. cbn [for_each] in H. unfold bind, ret in H.
    rewrite probe_run in H. unfold answers. rewrite Z.add_0_l in H.
    destruct ((set_i2c_address os (Z.of_nat k) ;; read_bytes os 31) sk)
      as [s2 [e | b]].
    + destruct (is_IOError e); [| discriminate].
      injection H as _ <-. now rewrite app_nil_r.
    + now injection H as _ <-.
Qed.

(** The loop runs through when no attempt raises anything but an I/O
    failure. *)
Lemma sweep_runs_through (s : state) (k : nat) :
  (forall i e,
      0 <= i < Z.of_nat k ->
      snd ((set_i2c_address os i ;; read_bytes os 31)
             (state_at os s (Z.to_nat i))) = inl e ->
      is_IOError e = true) ->
  exists devs,
    for_each (range 0 k) (probe os) [] s = (state_at os s k, inr devs).
Proof.
  induction k as [| k IH]; intros H.
  - now exists [].
  - destruct IH as [dk E].
    { intros i e Hi. apply H. lia. }
    unfold state_at at 1. rewrite range_S, for_each_app, E.
    cbn [for_each]. unfold bind, ret. rewrite probe_run, Z.add_0_l.
    specialize (H (Z.of_nat k)). rewrite Nat2Z.id in H.
    destruct ((set_i2c_address os (Z.of_nat k) ;; read_bytes os 31)
                (state_at os s k)) as [s2 [e | b]].
    + rewrite (H e) by (cbn [snd]; try reflexivity; lia). now exists dk.
    + now eexists.
Qed.

Lemma list_i2c_devices_run (s : state) :
  list_i2c_devices os s
  = match for_each (range 0 128) (probe os) [] s with
    | (s1, inr i2c_devices) =>
        match set_i2c_address os (current_addr s) s1 with
        | (s2, inr _) => (s2, inr i2c_devices)
        | (s2, inl e) => (s2, inl e)
        end
    | (s1, inl e) => (s1, inl e)
    end.
Proof.
  unfold list_i2c_devices, get_current_addr. unfold bind at 1 2. unfold ret.
  destruct (for_each (range 0 128) (probe os) [] s) as [s1 [e | d]];
    [reflexivity |].
  unfold bind. destruct (set_i2c_address os (current_addr s) s1) as [s2 [e | u]];
    reflexivity.
Qed.

(** The sweep when it returns.  An I/O failure at an address leaves the
    collected list as it is and the loop goes on.  When [list_i2c_devices]
    returns, its result is, in ascending order, the addresses of 0..127 at
    which selecting the address and reading a frame succeeded; when these
    were 99 and 100 only, it is [[99; 100]]; and the recorded address is the
    one the channel had before the call. *)
Theorem list_i2c_devices_sweep (s : state) :
  (forall i acc st errno,
      snd ((set_i2c_address os i ;; read_bytes os 31) st)
      = inl (OSError errno) ->
      snd (probe os i acc st) = inr acc)
  /\ (forall s' devs,
         list_i2c_devices os s = (s', inr devs) ->
         let present i := answers os (state_at os s (Z.to_nat i)) i in
         devs = filter present (range 0 128)
         /\ StronglySorted Z.lt devs
         /\ (forall i, In i devs <-> 0 <= i < 128 /\ present i = true)
         /\ ((forall i, 0 <= i < 128 ->
                        present i = (i =? 99) || (i =? 100)) ->
             devs = [99; 100])
         /\ current_addr s' = current_addr s).
Proof.
  split.
  - intros i acc st errno H. rewrite probe_run.
    destruct ((set_i2c_address os i ;; read_bytes os 31) st) as [s2 [e | b]];
      cbn [snd] in H; [| discriminate].
    injection H as ->. reflexivity.
  - intros s' devs H present. rewrite list_i2c_devices_run in H.
    destruct (for_each (range 0 128) (probe os) [] s) as [s1 [e | d]] eqn:E;
      [discriminate |].
    destruct (set_i2c_address os (current_addr s) s1) as [s2 [e | u]] eqn:R;
      [discriminate |].
    injection H as <- <-. apply set_i2c_address_recorded in R.
    destruct (sweep_collects _ _ _ _ E) as [_ Hd]. fold present in Hd.
    repeat split.
    + exact Hd.
    + rewrite Hd. apply filter_sorted, range_sorted.
    + rewrite Hd in H. apply filter_In in H as [H _].
      apply in_range_iff in H. lia.
    + rewrite Hd in H. apply filter_In in H as [H _].
      apply in_range_iff in H. simpl in H. lia.
    + rewrite Hd in H. now apply filter_In in H.
    + intros [Hi Hp]. rewrite Hd. apply filter_In. split; [| exact Hp].
      apply in_range_iff. simpl. lia.
    + intros Hp. rewrite Hd.
      rewrite (filter_ext_in present (fun i => (i =? 99) || (i =? 100))).
      * reflexivity.
      * intros i Hi. apply Hp. apply in_range_iff in Hi. simpl in Hi. lia.
    + exact R.
Qed.

(** The path on which the address is restored.  When no attempt of the
    sweep raises anything but an I/O failure and the final selection of the
    saved address is accepted, [list_i2c_devices] returns and the recorded
    address is the one saved at the start. *)
Theorem list_i2c_devices_restores_on_completion (s : state) :
  (forall i e,
      0 <= i < 128 ->
      snd ((set_i2c_address os i ;; read_bytes os 31)
             (state_at os s (Z.to_nat i))) = inl e ->
      is_IOError e = true) ->
  snd (set_i2c_address os (current_addr s) (state_at os s 128)) = inr tt ->
  exists s' devs,
    list_i2c_devices os s = (s', inr devs)
    /\ current_addr s' = current_addr s.
Proof.
  intros Hio Hfinal.
  destruct (sweep_runs_through s 128 Hio) as [devs E].
  rewrite list_i2c_devices_run, E.
  destruct (set_i2c_address os (current_addr s) (state_at os s 128))
    as [s2 [e | u]] eqn:R; [discriminate |].
  exists s2, devs. split; [reflexivity |].
  exact (set_i2c_address_recorded _ _ _ _ _ R).
Qed.

End Sweep.

(** ** The properties on concrete buses *)

Lemma read_bytes_payload_bit7_clear_witness :
  read_bytes (bus_answering (frame_of "7.00")) 31 (opened 99)
  = (record_call (Read 31) (opened 99), inr [x37; x2e; x30; x30])
  /\ Forall (fun b => Z.land (byte_val b) 0x80 = 0) [x37; x2e; x30; x30].
Proof.
  split; [reflexivity |].
  apply (read_bytes_payload_bit7_clear
           (bus_answering (frame_of "7.00")) 31 (opened 99)
           (record_call (Read 31) (opened 99)) [x37; x2e; x30; x30]).
  reflexivity.
Defined.

Lemma non_success_status_raises_witness :
  first_non_null [x00; xfe; x00] = Some xfe
  /\ xfe <> x01
  /\ read (bus_answering [x00; xfe; x00]) 31 (opened 99)
     = (record_call (Read 31) (opened 99), inl (Exception (lit "Error 254")))
  /\ snd (query ascii_upper (bus_answering [x00; xfe; x00]) (lit "I")
            (opened 99))
     = inl (Exception (lit "Error 254")).
Proof.
  assert (Hb : xfe <> x01) by discriminate.
  destruct (non_success_status_raises ascii_upper
              (bus_answering [x00; xfe; x00]) [x00; xfe; x00] xfe
              eq_refl Hb) as [Hread Hquery].
  split; [reflexivity |]. split; [exact Hb |]. split.
  - apply (Hread 31 (opened 99)). reflexivity.
  - apply (Hquery (lit "I") (opened 99) [x49; x00]
             (Sleep short_timeout :: Write [x49; x00] :: calls (opened 99)));
      reflexivity.
Defined.

Lemma all_null_frame_raises_witness :
  (forall b, In b [x00; x00; x00] -> b = x00)
  /\ read_bytes (bus_answering [x00; x00; x00]) 31 (opened 99)
     = (record_call (Read 31) (opened 99), inl StopIteration).
Proof.
  assert (Hz : forall b, In b [x00; x00; x00] -> b = x00).
  { intros b [H | [H | [H | []]]]; now subst b. }
  split; [exact Hz |].
  apply (all_null_frame_raises (bus_answering [x00; x00; x00]) 31 (opened 99)
           [x00; x00; x00] eq_refl Hz).
Defined.

(** The round trip of the information command. *)
Lemma decode_never_fails_on_payload_witness :
  query ascii_upper (bus_answering (frame_of "?I,pH,1.0")) (lit "I")
    (opened 99)
  = (record_call (Read 31)
       (record_call (Sleep short_timeout)
          (record_call (Write [x49; x00]) (opened 99))),
     inr (lit "?I,pH,1.0")).
Proof.
  apply (proj2 (decode_never_fails_on_payload ascii_upper
                  (bus_answering (frame_of "?I,pH,1.0")))
           (lit "I") (opened 99) _
           [x3f; x49; x2c; x70; x48; x2c; x31; x2e; x30]).
  reflexivity.
Defined.

Lemma write_appends_one_null_witness :
  encode_utf8 (lit "L,1") = inr [x4c; x2c; x31]
  /\ fst (write bus_99_100 (lit "L,1") (opened 99))
     = record_call (Write [x4c; x2c; x31; x00]) (opened 99).
Proof.
  split; [reflexivity |].
  apply (write_appends_one_null bus_99_100 (lit "L,1") (opened 99)
           [x4c; x2c; x31] eq_refl).
Defined.

Lemma query_timeout_class_witness :
  calls (fst (query ascii_upper bus_99_100 (lit "Cal,low,4") (opened 99)))
  = Read 31 :: Sleep (3 # 2)
      :: Write [x43; x61; x6c; x2c; x6c; x6f; x77; x2c; x34; x00]
      :: calls (opened 99)
  /\ calls (fst (query ascii_upper bus_99_100 (lit "L,1") (opened 99)))
     = Read 31 :: Sleep (1 # 2) :: Write [x4c; x2c; x31; x00]
         :: calls (opened 99).
Proof.
  split.
  - apply (proj1 (query_timeout_class ascii_upper bus_99_100
                    (lit "Cal,low,4") (opened 99) _ eq_refl eq_refl)).
    right. reflexivity.
  - apply (proj2 (query_timeout_class ascii_upper bus_99_100
                    (lit "L,1") (opened 99) _ eq_refl eq_refl));
      reflexivity.
Defined.

Lemma sleep_command_written_then_rejected_witness :
  startswith (upper ascii_upper (lit "sleep,1")) (lit "SLEEP") = true
  /\ query ascii_upper bus_99_100 (lit "sleep,1") (opened 99)
     = (record_call (Write [x73; x6c; x65; x65; x70; x2c; x31; x00])
          (opened 99),
        inl (Exception (lit "sleep mode"))).
Proof.
  split; [reflexivity |].
  apply (sleep_command_written_then_rejected ascii_upper bus_99_100
           (lit "sleep,1") (opened 99) _ eq_refl eq_refl eq_refl).
Defined.

(** C1 as stated fails: the sleep command is on the write stream before the
    query is rejected. *)
Lemma sleep_command_reaches_the_bus :
  startswith (upper ascii_upper (lit "SLEEP")) (lit "SLEEP") = true
  /\ query ascii_upper bus_99_100 (lit "SLEEP") (opened 99)
     = (record_call (Write [x53; x4c; x45; x45; x50; x00]) (opened 99),
        inl (Exception (lit "sleep mode")))
  /\ calls (fst (query ascii_upper bus_99_100 (lit "SLEEP") (opened 99)))
     <> calls (opened 99).
Proof.
  split; [reflexivity |]. split; [reflexivity |].
  vm_compute. discriminate.
Qed.

Lemma list_i2c_devices_sweep_witness :
  snd (list_i2c_devices bus_99_100 (opened 99)) = inr [99; 100]
  /\ StronglySorted Z.lt [99; 100]
  /\ current_addr (fst (list_i2c_devices bus_99_100 (opened 99))) = 99.
Proof.
  assert (H : list_i2c_devices bus_99_100 (opened 99)
              = (fst (list_i2c_devices bus_99_100 (opened 99)),
                 inr [99; 100])).
  { vm_compute. reflexivity. }
  destruct (proj2 (list_i2c_devices_sweep bus_99_100 (opened 99)) _ _ H)
    as [_ [Hsorted [_ [_ Haddr]]]].
  split; [now rewrite H |]. split; [exact Hsorted | exact Haddr].
Defined.

(** The sweep of the bus on which only 99 and 100 answer, from any state. *)
Lemma sweep_99_100 (s : state) :
  snd (list_i2c_devices bus_99_100 s) = inr [99; 100]
  /\ current_addr (fst (list_i2c_devices bus_99_100 s)) = current_addr s.
Proof.
  destruct s as [addr tr]. split; vm_compute; reflexivity.
Qed.

Lemma list_i2c_devices_restores_on_completion_witness :
  exists s' devs,
    list_i2c_devices bus_99_100 (opened 99) = (s', inr devs)
    /\ current_addr s' = current_addr (opened 99).
Proof.
  apply (list_i2c_devices_restores_on_completion bus_99_100 (opened 99)).
  - intros i e Hi.
    assert (Hall : forallb
              (fun i =>
                 match snd ((set_i2c_address bus_99_100 i ;;
                             read_bytes bus_99_100 31)
                              (state_at bus_99_100 (opened 99) (Z.to_nat i)))
                 with
                 | inl e => is_IOError e
                 | inr _ => true
                 end) (range 0 128) = true).
    { vm_compute. reflexivity. }
    assert (Hin : In i (range 0 128)).
    { apply in_range_iff. simpl. lia. }
    pose proof (proj1 (forallb_forall _ _) Hall i Hin) as Hi'.
    cbv beta in Hi'. intros He. rewrite He in Hi'. exact Hi'.
  - vm_compute. reflexivity.
Defined.

(** C7.  The address is not restored on every exit path.  The saved address
    is meant to be restored after the sweep (comments of lines 113 and 125),
    and an [IOError] at an address is caught and the sweep goes on to restore
    it; but the [Exception] that [read_bytes] raises for the idle device at
    address 5 (status 255, no data) is not caught by [except IOError]: the
    sweep is left through it and the recorded address stays 5. *)
Lemma sweep_left_by_exception_keeps_probed_address :
  snd (list_i2c_devices bus_no_data_at_5 (opened 99))
  = inl (Exception (lit "Error 255"))
  /\ current_addr (fst (list_i2c_devices bus_no_data_at_5 (opened 99))) = 5
  /\ current_addr (fst (list_i2c_devices bus_no_data_at_5 (opened 99)))
     <> current_addr (opened 99).
Proof.
  split; [vm_compute; reflexivity |]. split; [vm_compute; reflexivity |].
  vm_compute. discriminate.
Qed.

(** C6.  The sweep does not skip every address that fails to answer.  On the
    bus where selecting an address and reading a frame succeeds at 99 and 100
    only, the idle device at address 5 answering status 255, the sweep started
    on a channel at 99 reads six frames (addresses 0 to 5) and is left by
    [Exception("Error 255")]: no list is returned, 99 and 100 are never
    probed, and the recorded address is 5. *)
Theorem sweep_aborted_by_idle_device :
  (forall s, filter (answers bus_99_100_idle_5 s) (range 0 128) = [99; 100])
  /\ snd (list_i2c_devices bus_99_100_idle_5 (opened 99))
     = inl (Exception (lit "Error 255"))
  /\ filter (fun c => match c with Read _ => true | _ => false end)
        (calls (fst (list_i2c_devices bus_99_100_idle_5 (opened 99))))
     = repeat (Read 31) 6
  /\ bound_read_addr
        (calls (fst (list_i2c_devices bus_99_100_idle_5 (opened 99))))
     = Some 5
  /\ current_addr (fst (list_i2c_devices bus_99_100_idle_5 (opened 99))) = 5.
Proof.
  split.
  - intros [addr tr]. vm_compute. reflexivity.
  - repeat split; vm_compute; reflexivity.
Qed.

(** The classification examples of the commands. *)
Example long_delay_commands :
  map (fun c => calls (fst (query ascii_upper bus_99_100 (lit c) (opened 99))))
      ["R"; "r"; "cal"]%string
  = map (fun data => Read 31 :: Sleep long_timeout :: Write data
                       :: calls (opened 99))
      [[x52; x00]; [x72; x00]; [x63; x61; x6c; x00]].
Proof. reflexivity. Qed.

Example write_fault_stops_the_query :
  query ascii_upper bus_write_fault (lit "R") (opened 99)
  = (record_call (Write [x52; x00]) (opened 99), inl (OSError EREMOTEIO)).
Proof. reflexivity. Qed.

Example refused_bind_keeps_recorded_address :
  set_i2c_address bus_bind_fault 100 (opened 99)
  = ({| current_addr := 99;
        calls := Ioctl file_write 0x703 100 :: Ioctl file_read 0x703 100
                   :: calls (opened 99) |},
     inl (OSError 16)).
Proof. reflexivity. Qed.

(** * Further properties of the module *)

(** ** What a frame delivers *)

Lemma glitch_val (c : N) : (c < 128)%N -> byte_val (glitch c) = Z.of_N c + 128.
Proof.
  intros Hc. unfold glitch, byte_val.
  assert (Hl : N.land c 0x80 = 0%N).
  { rewrite <- (N.mod_small c (2 ^ 7)) by exact Hc.
    rewrite <- N.land_ones, <- N.land_assoc. apply N.land_0_r. }
  rewrite <- (N.lxor_lor _ _ Hl), <- (N.add_nocarry_lxor _ _ Hl).
  rewrite to_N_byte_of_N by lia. lia.
Qed.

Lemma glitch_cleared (c : N) :
  (c < 128)%N -> Z.land (byte_val (glitch c)) (Z.lnot 0x80) = Z.of_N c.
Proof.
  intros Hc. rewrite clear_msb_mod by (rewrite glitch_val by exact Hc; lia).
  rewrite glitch_val by exact Hc. change (2 ^ 7) with 128.
  rewrite <- (Z.mul_1_l 128) at 1. rewrite Z.mod_add by lia.
  apply Z.mod_small. lia.
Qed.

Lemma strip_nulls_bytes (res : bytes) :
  filter (fun x => negb (x =? 0)) (iter_bytes res)
  = map byte_val (filter (fun b => negb (Byte.eqb b x00)) res).
Proof.
  rewrite iter_bytes_val.
  induction res as [| a res IH]; [reflexivity |].
  cbn [map filter]. rewrite byte_val_null.
  destruct (negb (Byte.eqb a x00)); cbn [map]; now rewrite IH.
Qed.

Lemma bytes_of_ints_glitched (text : str) :
  Forall (fun c => (c < 128)%N) text ->
  bytes_of_ints
    (map (fun x => Z.land x (Z.lnot 0x80)) (map byte_val (map glitch text)))
  = inr (map byte_of_N text).
Proof.
  induction 1 as [| c text Hc _ IH]; [reflexivity |].
  cbn [map bytes_of_ints]. rewrite IH, glitch_cleared by exact Hc.
  replace ((0 <=? Z.of_N c) && (Z.of_N c <? 256)) with true
    by (symmetry; apply andb_true_intro; split;
        [apply Z.leb_le | apply Z.ltb_lt]; lia).
  rewrite N2Z.id. unfold byte_of_N.
  destruct (Byte.of_N c) as [b |] eqn:Hb; [reflexivity |].
  exfalso. pose proof (Byte.to_of_N_option_map c) as Hm.
  rewrite Hb in Hm. simpl in Hm.
  destruct (N.leb_spec c 255); [discriminate | lia].
Qed.

Lemma map_to_N_byte_of_N (text : str) :
  Forall (fun c => (c < 128)%N) text -> map Byte.to_N (map byte_of_N text) = text.
Proof.
  induction 1 as [| c text Hc _ IH]; [reflexivity |].
  cbn [map]. rewrite IH, to_N_byte_of_N by lia. reflexivity.
Qed.

Lemma parse_response_glitched (res : bytes) (text : str) :
  filter (fun b => negb (Byte.eqb b x00)) res = x01 :: map glitch text ->
  Forall (fun c => (c < 128)%N) text ->
  parse_response res = inr (map byte_of_N text).
Proof.
  intros Hf Ha. unfold parse_response. rewrite strip_nulls_bytes, Hf.
  cbn [map]. change (byte_val x01 =? 1) with true. cbv iota.
  now apply bytes_of_ints_glitched.
Qed.

Section Delivery.

Variable to_upper_full : N -> list N.

Variable os : OS.

(** X1.  The payload [read_bytes] returns has one byte for every non-null
    byte that follows the status byte, in order, each reduced modulo 128:
    null bytes are dropped wherever they stand, and a raw byte 0x80 is
    delivered as a null byte. *)
Theorem read_bytes_payload_exact
  (num_of_bytes : Z) (s s' : state) (payload : bytes) :
  read_bytes os num_of_bytes s = (s', inr payload) ->
  exists res rest,
    read_returns os (calls s) num_of_bytes = inr res
    /\ filter (fun b => negb (Byte.eqb b x00)) res = x01 :: rest
    /\ map byte_val payload = map (fun b => byte_val b mod 128) rest.
Proof.
  rewrite read_bytes_run. intros H. injection H as _ H.
  destruct (read_returns os (calls s) num_of_bytes) as [e | res];
    [discriminate |].
  exists res. unfold parse_response in H. rewrite strip_nulls_bytes in H.
  destruct (filter (fun b => negb (Byte.eqb b x00)) res) as [| b rest];
    [discriminate |].
  cbn [map] in H.
  destruct (Z.eqb_spec (byte_val b) 1) as [E | E]; [| discriminate].
  apply bytes_of_ints_inv in H. exists rest.
  split; [reflexivity |]. split.
  - f_equal. apply byte_val_inj. exact E.
  - rewrite H, map_map. apply map_ext. intros a.
    now rewrite clear_msb_mod by apply byte_val_range.
Qed.

(** X2.  The glitch is undone: a frame whose non-null bytes are the status
    byte 1 and the characters of an ASCII text with bit 7 set is read back
    as that text, wherever null bytes are interspersed. *)
Theorem read_undoes_glitch
  (num_of_bytes : Z) (s : state) (res : bytes) (text : str) :
  read_returns os (calls s) num_of_bytes = inr res ->
  filter (fun b => negb (Byte.eqb b x00)) res = x01 :: map glitch text ->
  Forall (fun c => (c < 128)%N) text ->
  read_bytes os num_of_bytes s
  = (record_call (Read num_of_bytes) s, inr (map byte_of_N text))
  /\ read os num_of_bytes s = (record_call (Read num_of_bytes) s, inr text).
Proof.
  intros Hr Hf Ha.
  assert (E : read_bytes os num_of_bytes s
              = (record_call (Read num_of_bytes) s,
                 inr (map byte_of_N text))).
  { now rewrite read_bytes_run, Hr, (parse_response_glitched res text Hf Ha). }
  split; [exact E |].
  rewrite read_run, E. cbn [fst snd]. f_equal.
  unfold decode_utf8. rewrite map_to_N_byte_of_N by exact Ha.
  now rewrite decode_utf8_N_ascii.
Qed.

(** X3.  A query that is not a sleep command, whose write went through and
    whose read is given such a frame, returns the text of the device. *)
Theorem query_returns_device_text
  (string : str) (s : state) (data res : bytes) (text : str)
  (tr : list call) :
  encode_utf8 (string ++ [0%N]) = inr data ->
  write_raises os (calls s) data = None ->
  startswith (upper to_upper_full string) (lit "SLEEP") = false ->
  calls (fst (query to_upper_full os string s)) = Read 31 :: tr ->
  read_returns os tr 31 = inr res ->
  filter (fun b => negb (Byte.eqb b x00)) res = x01 :: map glitch text ->
  Forall (fun c => (c < 128)%N) text ->
  snd (query to_upper_full os string s) = inr text.
Proof.
  intros He Hw Hs Hc Hr Hf Ha.
  rewrite query_run in Hc |- *. cbn [fst snd] in Hc |- *.
  rewrite (query_bytes_run to_upper_full os string s data He Hw) in Hc |- *.
  cbv zeta in Hc |- *. rewrite Hs in Hc |- *.
  assert (G : forall s2,
             calls (fst (read_bytes os 31 s2)) = Read 31 :: tr ->
             snd (read_bytes os 31 s2) = inr (map byte_of_N text)).
  { intros s2 H2. rewrite read_bytes_run in H2. cbn [fst calls record_call] in H2.
    injection H2 as H2. rewrite <- H2 in Hr.
    now rewrite read_bytes_run, Hr, (parse_response_glitched res text Hf Ha). }
  assert (D : decode_utf8 (map byte_of_N text) = inr text).
  { unfold decode_utf8. rewrite map_to_N_byte_of_N by exact Ha.
    now rewrite decode_utf8_N_ascii. }
  destruct (startswith _ (lit "R") || startswith _ (lit "CAL"));
    rewrite (G _ Hc); exact D.
Qed.

Lemma query_effects (string : str) (s : state) :
  let s' := fst (query to_upper_full os string s) in
  current_addr s' = current_addr s
  /\ (calls s' = calls s
      \/ (exists data, calls s' = Write data :: calls s)
      \/ (exists data seconds,
             (seconds = long_timeout \/ seconds = short_timeout)
             /\ calls s' = Read 31 :: Sleep seconds :: Write data :: calls s)).
Proof.
  cbv zeta. rewrite query_run. cbn [fst].
  unfold query_bytes, bind. rewrite write_run.
  destruct (encode_utf8 (string ++ [0%N])) as [e | data].
  - split; [reflexivity | left; reflexivity].
  - destruct (write_raises os (calls s) data) as [e |].
    + split; [reflexivity |]. right. left. now exists data.
    + destruct (startswith _ (lit "R") || startswith _ (lit "CAL")).
      * cbn [time_sleep]. rewrite read_bytes_run.
        split; [reflexivity |]. right. right.
        exists data, long_timeout. split; [now left | reflexivity].
      * destruct (startswith _ (lit "SLEEP")).
        -- split; [reflexivity |]. right. left. now exists data.
        -- cbn [time_sleep]. rewrite read_bytes_run.
           split; [reflexivity |]. right. right.
           exists data, short_timeout. split; [now right | reflexivity].
Qed.

(** X4.  A query leaves the recorded address alone and makes no bind: it
    makes no call at all (the command has no encoding), or the write only
    (the write failed or the command is a sleep command), or the write, one
    sleep of 1.5 s or 0.5 s and one read of 31 bytes, in this order. *)
Theorem query_calls_shape (string : str) (s : state) :
  let s' := fst (query to_upper_full os string s) in
  current_addr s' = current_addr s
  /\ (calls s' = calls s
      \/ (exists data, calls s' = Write data :: calls s)
      \/ (exists data seconds,
             (seconds = long_timeout \/ seconds = short_timeout)
             /\ calls s' = Read 31 :: Sleep seconds :: Write data :: calls s)).
Proof. exact (query_effects string s). Qed.

(** X5.  When the write stream refuses the command, the query raises what
    the write raised and neither sleeps nor reads. *)
Theorem query_stops_at_write_fault
  (string : str) (s : state) (data : bytes) (e : exn) :
  encode_utf8 (string ++ [0%N]) = inr data ->
  write_raises os (calls s) data = Some e ->
  query to_upper_full os string s = (record_call (Write data) s, inl e).
Proof.
  intros He Hw. rewrite query_run. unfold query_bytes, bind.
  now rewrite write_run, He, Hw.
Qed.

End Delivery.

(** ** The binding of the two streams *)

Lemma bound_skip (os : OS) (f : stream) (new tr : list call) :
  Forall (fun c => is_ioctl c = false) new ->
  bound os f (new ++ tr) = bound os f tr.
Proof.
  induction 1 as [| c new Hc _ IH]; [reflexivity |].
  destruct c; try discriminate; exact IH.
Qed.

Section Binding.

Variable to_upper_full : N -> list N.

Variable os : OS.

Lemma in_sync_skip (s s' : state) (new : list call) :
  current_addr s' = current_addr s ->
  calls s' = new ++ calls s ->
  Forall (fun c => is_ioctl c = false) new ->
  in_sync os s -> in_sync os s'.
Proof.
  unfold in_sync. intros -> -> Hn. now rewrite !bound_skip.
Qed.

(** The three ways [set_i2c_address] can go, with the bindings it leaves. *)
Lemma set_i2c_address_bindings (addr : Z) (s : state) :
  let s' := fst (set_i2c_address os addr s) in
  match snd (set_i2c_address os addr s) with
  | inr _ =>
      current_addr s' = addr
      /\ bound os file_read (calls s') = Some addr
      /\ bound os file_write (calls s') = Some addr
  | inl e =>
      current_addr s' = current_addr s
      /\ bound os file_write (calls s') = bound os file_write (calls s)
      /\ (bound os file_read (calls s') = bound os file_read (calls s)
          \/ bound os file_read (calls s') = Some addr
             /\ ioctl_raises os (calls s) file_read 0x703 addr = None)
  end.
Proof.
  cbv zeta. rewrite set_i2c_address_run.
  destruct (ioctl_raises os (calls s) file_read 1795 addr) as [e |] eqn:E1.
  - cbn [fst snd record_call calls current_addr bound stream_eqb andb
           Z.eqb Pos.eqb].
    rewrite E1. auto.
  - cbv zeta. cbn [record_call calls].
    destruct (ioctl_raises os _ file_write 1795 addr) as [e |] eqn:E2;
      cbn [fst snd record_call calls current_addr bound stream_eqb andb
             Z.eqb Pos.eqb];
      rewrite ?E1, ?E2; auto.
Qed.

(** X6.  When [set_i2c_address] returns, the recorded address is the new
    one and both streams are bound to it. *)
Theorem set_i2c_address_in_sync (addr : Z) (s s' : state) (u : unit) :
  set_i2c_address os addr s = (s', inr u) ->
  current_addr s' = addr /\ in_sync os s'.
Proof.
  intros H. pose proof (set_i2c_address_bindings addr s) as B.
  cbv zeta in B. rewrite H in B. cbn [fst snd] in B.
  destruct B as [Ha [Hr Hw]]. unfold in_sync. rewrite Ha. auto.
Qed.

(** X7.  When the read stream accepts a new address and the write stream
    refuses it, [set_i2c_address] raises, the recorded address and the write
    stream stay where they were and the read stream is on the new address:
    a channel that was in step no longer is. *)
Theorem set_i2c_address_half_bound (addr : Z) (s : state) (e : exn) :
  in_sync os s ->
  addr <> current_addr s ->
  ioctl_raises os (calls s) file_read 0x703 addr = None ->
  ioctl_raises os (Ioctl file_read 0x703 addr :: calls s) file_write 0x703 addr
  = Some e ->
  let s' := fst (set_i2c_address os addr s) in
  snd (set_i2c_address os addr s) = inl e
  /\ current_addr s' = current_addr s
  /\ bound os file_read (calls s') = Some addr
  /\ bound os file_write (calls s') = Some (current_addr s)
  /\ ~ in_sync os s'.
Proof.
  intros [Hr Hw] Hne E1 E2. cbv zeta. rewrite set_i2c_address_run, E1.
  cbv zeta. cbn [record_call calls]. rewrite E2.
  cbn [fst snd record_call calls current_addr bound stream_eqb andb
         Z.eqb Pos.eqb].
  rewrite E1, E2.
  repeat split; try assumption.
  unfold in_sync.
  cbn [record_call calls current_addr bound stream_eqb andb Z.eqb Pos.eqb].
  rewrite E1. intros [H _]. congruence.
Qed.

(** X8.  Selecting again the address a channel in step is on keeps it in
    step, whether the binds are accepted or refused. *)
Theorem set_i2c_address_again_in_sync (s : state) :
  in_sync os s ->
  in_sync os (fst (set_i2c_address os (current_addr s) s)).
Proof.
  intros [Hr Hw]. pose proof (set_i2c_address_bindings (current_addr s) s) as B.
  cbv zeta in B. unfold in_sync.
  destruct (snd (set_i2c_address os (current_addr s) s)) as [e | u].
  - destruct B as [-> [-> [-> | [-> _]]]]; auto.
  - destruct B as [-> [-> ->]]. auto.
Qed.

Lemma read_bytes_effects (n : Z) (s : state) :
  current_addr (fst (read_bytes os n s)) = current_addr s
  /\ calls (fst (read_bytes os n s)) = [Read n] ++ calls s.
Proof. rewrite read_bytes_run. split; reflexivity. Qed.

(** X9.  [write], [read] and [query] keep a channel in step: they bind
    nothing and leave the recorded address alone. *)
Theorem transfers_keep_in_sync (string : str) (n : Z) (s : state) :
  in_sync os s ->
  in_sync os (fst (write os string s))
  /\ in_sync os (fst (read os n s))
  /\ in_sync os (fst (query to_upper_full os string s)).
Proof.
  intros H. split; [| split].
  - rewrite write_run. destruct (encode_utf8 (string ++ [0%N])) as [e | data];
      [exact H |].
    apply (in_sync_skip s _ [Write data]); auto.
  - rewrite read_run. cbn [fst].
    destruct (read_bytes_effects n s) as [Ha Hc].
    apply (in_sync_skip s _ [Read n]); auto.
  - destruct (query_effects to_upper_full os string s)
      as [Ha [Hc | [[data Hc] | [data [d [_ Hc]]]]]].
    + apply (in_sync_skip s _ []); auto.
    + apply (in_sync_skip s _ [Write data]); auto.
    + apply (in_sync_skip s _ [Read 31; Sleep d; Write data]); auto.
Qed.

End Binding.

(** ** What the sweep does to the bus and to the channel *)

Section SweepEffects.

Variable os : OS.

Lemma sweep_call_bind (orig a : Z) (f : stream) :
  0 <= a < 128 \/ a = orig -> sweep_call orig (Ioctl f 0x703 a) = true.
Proof.
  intros H. cbn [sweep_call Z.eqb Pos.eqb andb].
  apply orb_true_iff. destruct H as [H | H].
  - left. apply andb_true_intro. split; [apply Z.leb_le | apply Z.ltb_lt]; lia.
  - right. now apply Z.eqb_eq.
Qed.

Lemma set_i2c_address_effects (orig addr : Z) (s : state) :
  0 <= addr < 128 \/ addr = orig ->
  exists new,
    calls (fst (set_i2c_address os addr s)) = new ++ calls s
    /\ Forall (fun c => sweep_call orig c = true) new
    /\ (current_addr (fst (set_i2c_address os addr s)) = current_addr s
        \/ current_addr (fst (set_i2c_address os addr s)) = addr).
Proof.
  intros Ha. rewrite set_i2c_address_run.
  pose proof (sweep_call_bind orig addr file_read Ha) as Hr.
  pose proof (sweep_call_bind orig addr file_write Ha) as Hw.
  destruct (ioctl_raises os (calls s) file_read 1795 addr).
  - exists [Ioctl file_read 0x703 addr]. repeat split; auto.
  - cbv zeta. destruct (ioctl_raises os _ file_write 1795 addr).
    + exists [Ioctl file_write 0x703 addr; Ioctl file_read 0x703 addr].
      repeat split; auto.
    + exists [Ioctl file_write 0x703 addr; Ioctl file_read 0x703 addr].
      repeat split; auto.
Qed.

Lemma probe_effects (orig i : Z) (acc : list Z) (s : state) :
  0 <= i < 128 ->
  exists new,
    calls (fst (probe os i acc s)) = new ++ calls s
    /\ Forall (fun c => sweep_call orig c = true) new
    /\ (current_addr (fst (probe os i acc s)) = current_addr s
        \/ current_addr (fst (probe os i acc s)) = i).
Proof.
  intros Hi. rewrite probe_run. unfold bind.
  destruct (set_i2c_address_effects orig i s (or_introl Hi))
    as [new [Hc [Hn Ha]]].
  destruct (set_i2c_address os i s) as [s1 [e | u]]; cbn [fst] in Hc, Ha.
  - exists new. destruct (is_IOError e); auto.
  - destruct (read_bytes_effects os 31 s1) as [Ha' Hc'].
    destruct (read_bytes os 31 s1) as [s2 [e | b]]; cbn [fst] in Hc', Ha'.
    + exists (Read 31 :: new).
      destruct (is_IOError e); cbn [fst]; rewrite Hc', Hc, Ha';
        repeat split; auto.
    + exists (Read 31 :: new). cbn [fst]. rewrite Hc', Hc, Ha'.
      repeat split; auto.
Qed.

Lemma for_each_probe_effects (orig : Z) (l : list Z) (acc : list Z)
  (s : state) :
  Forall (fun i => 0 <= i < 128) l ->
  exists new,
    calls (fst (for_each l (probe os) acc s)) = new ++ calls s
    /\ Forall (fun c => sweep_call orig c = true) new
    /\ (current_addr (fst (for_each l (probe os) acc s)) = current_addr s
        \/ 0 <= current_addr (fst (for_each l (probe os) acc s)) < 128).
Proof.
  intros Hl. revert acc s.
  induction Hl as [| i l Hi _ IH]; intros acc s.
  - exists []. repeat split; auto.
  - cbn [for_each]. unfold bind.
    destruct (probe_effects orig i acc s Hi) as [new [Hc [Hn Ha]]].
    destruct (probe os i acc s) as [s1 [e | acc1]]; cbn [fst] in Hc, Ha.
    + exists new. cbn [fst]. repeat split; auto.
      destruct Ha as [Ha | Ha]; [now left | right; lia].
    + destruct (IH acc1 s1) as [new' [Hc' [Hn' Ha']]].
      exists (new' ++ new). rewrite Hc', Hc, app_assoc.
      split; [reflexivity |]. split; [now apply Forall_app |].
      destruct Ha' as [Ha' | Ha']; [| now right].
      rewrite Ha'. destruct Ha as [Ha | Ha]; [now left | right; lia].
Qed.

Lemma range_bounds (n : nat) :
  (n <= 128)%nat -> Forall (fun i => 0 <= i < 128) (range 0 n).
Proof.
  intros Hn. apply Forall_forall. intros i Hi.
  apply in_range_iff in Hi. lia.
Qed.

Lemma list_i2c_devices_effects (s : state) :
  let s' := fst (list_i2c_devices os s) in
  (exists new,
      calls s' = new ++ calls s
      /\ Forall (fun c => sweep_call (current_addr s) c = true) new)
  /\ (current_addr s' = current_addr s \/ 0 <= current_addr s' < 128).
Proof.
  cbv zeta. rewrite list_i2c_devices_run.
  destruct (for_each_probe_effects (current_addr s) (range 0 128) [] s
              (range_bounds 128 (Nat.le_refl _))) as [new [Hc [Hn Ha]]].
  destruct (for_each (range 0 128) (probe os) [] s) as [s1 [e | devs]];
    cbn [fst] in Hc, Ha.
  - split; [now exists new | exact Ha].
  - destruct (set_i2c_address_effects (current_addr s) (current_addr s) s1
                (or_intror eq_refl)) as [new' [Hc' [Hn' Ha']]].
    destruct (set_i2c_address os (current_addr s) s1) as [s2 [e | u]];
      cbn [fst] in Hc', Ha' |- *.
    + split.
      * exists (new' ++ new). rewrite Hc', Hc, app_assoc.
        split; [reflexivity | now apply Forall_app].
      * destruct Ha' as [-> | ->]; auto.
    + split.
      * exists (new' ++ new). rewrite Hc', Hc, app_assoc.
        split; [reflexivity | now apply Forall_app].
      * destruct Ha' as [-> | ->]; auto.
Qed.

(** X10.  The sweep sends nothing and never sleeps: the calls it adds are
    binds with the request [I2C_SLAVE] to an address of 0..127 or to the
    address saved at the start, and reads of 31 bytes. *)
Theorem list_i2c_devices_only_binds_and_reads (s : state) :
  exists new,
    calls (fst (list_i2c_devices os s)) = new ++ calls s
    /\ Forall (fun c => sweep_call (current_addr s) c = true) new.
Proof. exact (proj1 (list_i2c_devices_effects s)). Qed.

(** X11.  However [list_i2c_devices] ends, by returning or by raising, the
    recorded address is the one saved at the start or an address of
    0..127. *)
Theorem list_i2c_devices_address_in_range (s : state) :
  current_addr (fst (list_i2c_devices os s)) = current_addr s
  \/ 0 <= current_addr (fst (list_i2c_devices os s)) < 128.
Proof. exact (proj2 (list_i2c_devices_effects s)). Qed.

(** X12.  When [list_i2c_devices] returns, both streams are bound to the
    recorded address, whatever they were bound to before. *)
Theorem list_i2c_devices_in_sync (s s' : state) (devs : list Z) :
  list_i2c_devices os s = (s', inr devs) -> in_sync os s'.
Proof.
  rewrite list_i2c_devices_run.
  destruct (for_each (range 0 128) (probe os) [] s) as [s1 [e | d]];
    [discriminate |].
  pose proof (set_i2c_address_bindings os (current_addr s) s1) as B.
  cbv zeta in B.
  destruct (set_i2c_address os (current_addr s) s1) as [s2 [e | u]];
    [discriminate |].
  intros H. injection H as <- _. cbn [fst snd] in B.
  destruct B as [Ha [Hr Hw]]. unfold in_sync. now rewrite Ha.
Qed.

(** X13.  When [AtlasI2c(address, bus)] is constructed, both opens of the
    device of that bus were accepted, the two binds are the only calls made
    and the channel is in step on [address]. *)
Theorem init_in_sync
  (io_open : opener) (address bus : Z) (s : state) (u : unit) :
  init io_open os address bus = (s, inr u) ->
  io_open (lit "/dev/i2c-" ++ str_of_int bus) "r+b"%string = None
  /\ io_open (lit "/dev/i2c-" ++ str_of_int bus) "wb"%string = None
  /\ s = opened address
  /\ in_sync os s.
Proof.
  unfold init.
  destruct (io_open _ "r+b"%string); [discriminate |].
  destruct (io_open _ "wb"%string); [discriminate |].
  set (s0 := {| current_addr := address; calls := [] |}).
  intros H. pose proof (set_i2c_address_bindings os address s0) as B.
  cbv zeta in B. rewrite H in B. cbn [fst snd] in B.
  destruct B as [Ha [Hr Hw]].
  repeat split; [| unfold in_sync; now rewrite Ha ..].
  rewrite set_i2c_address_run in H.
  destruct (ioctl_raises os (calls s0) file_read 1795 address);
    [discriminate |].
  cbv zeta in H.
  destruct (ioctl_raises os _ file_write 1795 address); [discriminate |].
  now injection H as <-.
Qed.

End SweepEffects.

(** ** One turn of the command loop *)

Lemma split_no_separator (sep : N) (s : str) :
  ~ In sep s -> split sep s = [s].
Proof.
  induction s as [| c s IH]; intros H; [reflexivity |].
  cbn [split]. destruct (N.eqb_spec c sep) as [E | _].
  - elim H. now left.
  - rewrite IH; [reflexivity |]. intros Hs. apply H. now right.
Qed.

(** A line that begins with S is none of the three keywords. *)
Lemma sleep_is_no_keyword (u : str) :
  startswith u (lit "SLEEP") = true ->
  startswith u (lit "LIST_ADDR") = false
  /\ startswith u (lit "ADDRESS") = false
  /\ startswith u (lit "POLL") = false.
Proof.
  destruct u as [| c u]; [discriminate |].
  cbn [startswith lit map list_ascii_of_string]. intros H.
  apply andb_prop in H as [Hc _]. apply N.eqb_eq in Hc. subst c.
  repeat split; reflexivity.
Qed.

Section Turn.

Variable to_upper_full : N -> list N.

Variable os : OS.

Variable int_of_str : str -> exn + Z.

Variable poll : str -> Main (list str).

(** A query that reached its read hands on what the frame parses to. *)
Lemma query_bytes_of_frame
  (string : str) (s : state) (data res : bytes) (tr : list call) :
  encode_utf8 (string ++ [0%N]) = inr data ->
  write_raises os (calls s) data = None ->
  startswith (upper to_upper_full string) (lit "SLEEP") = false ->
  calls (fst (query to_upper_full os string s)) = Read 31 :: tr ->
  read_returns os tr 31 = inr res ->
  snd (query_bytes to_upper_full os string s) = parse_response res.
Proof.
  intros He Hw Hs Hc Hr.
  rewrite query_run in Hc. cbn [fst] in Hc.
  rewrite (query_bytes_run to_upper_full os string s data He Hw) in Hc |- *.
  cbv zeta in Hc |- *. rewrite Hs in Hc |- *.
  destruct (startswith _ (lit "R") || startswith _ (lit "CAL"));
    rewrite read_bytes_run in Hc |- *;
    cbn [fst snd calls record_call] in Hc |- *;
    injection Hc as Hc; now rewrite Hc, Hr.
Qed.

Lemma main_turn_query (myinput : str) (s : state) :
  startswith (upper to_upper_full myinput) (lit "LIST_ADDR") = false ->
  startswith (upper to_upper_full myinput) (lit "ADDRESS") = false ->
  startswith (upper to_upper_full myinput) (lit "POLL") = false ->
  main_turn to_upper_full os int_of_str poll myinput s
  = match query to_upper_full os myinput s with
    | (s', inr text) => (s', inr [text])
    | (s', inl e) =>
        if is_IOError e then (s', inr [lit "Query failed"])
        else (s', inl (Raised e))
    end.
Proof.
  intros H1 H2 H3. unfold main_turn. now rewrite H1, H2, H3.
Qed.

(** X14.  When the device answers a command of the loop with a status other
    than 1, the exception is not caught: the turn, and with it [main], ends
    with [Exception("Error <status>")]. *)
Theorem main_turn_device_error_escapes
  (myinput : str) (s : state) (data res : bytes) (b : byte)
  (tr : list call) :
  startswith (upper to_upper_full myinput) (lit "LIST_ADDR") = false ->
  startswith (upper to_upper_full myinput) (lit "ADDRESS") = false ->
  startswith (upper to_upper_full myinput) (lit "POLL") = false ->
  startswith (upper to_upper_full myinput) (lit "SLEEP") = false ->
  encode_utf8 (myinput ++ [0%N]) = inr data ->
  write_raises os (calls s) data = None ->
  calls (fst (query to_upper_full os myinput s)) = Read 31 :: tr ->
  read_returns os tr 31 = inr res ->
  first_non_null res = Some b ->
  b <> x01 ->
  snd (main_turn to_upper_full os int_of_str poll myinput s)
  = inl (Raised (Exception (lit "Error " ++ str_of_int (byte_val b)))).
Proof.
  intros H1 H2 H3 Hs He Hw Hc Hr Hf Hb.
  rewrite (main_turn_query myinput s H1 H2 H3), query_run.
  rewrite (query_bytes_of_frame myinput s data res tr He Hw Hs Hc Hr).
  now rewrite (parse_response_error res b Hf Hb).
Qed.

(** X15.  A sleep command typed at the loop is written to the board and
    then ends the turn, and with it [main], with [Exception("sleep mode")]. *)
Theorem main_turn_sleep_escapes (myinput : str) (s : state) (data : bytes) :
  startswith (upper to_upper_full myinput) (lit "SLEEP") = true ->
  encode_utf8 (myinput ++ [0%N]) = inr data ->
  write_raises os (calls s) data = None ->
  main_turn to_upper_full os int_of_str poll myinput s
  = (record_call (Write data) s,
     inl (Raised (Exception (lit "sleep mode")))).
Proof.
  intros Hs He Hw.
  destruct (sleep_is_no_keyword _ Hs) as [H1 [H2 H3]].
  rewrite (main_turn_query myinput s H1 H2 H3), query_run.
  rewrite (query_bytes_run to_upper_full os myinput s data He Hw).
  cbv zeta. now rewrite (startswith_sleep_only _ Hs), Hs.
Qed.

(** X16.  When the write stream fails with an I/O error the turn prints
    "Query failed" and ends normally, after the write attempt alone. *)
Theorem main_turn_reports_write_fault
  (myinput : str) (s : state) (data : bytes) (errno : Z) :
  startswith (upper to_upper_full myinput) (lit "LIST_ADDR") = false ->
  startswith (upper to_upper_full myinput) (lit "ADDRESS") = false ->
  startswith (upper to_upper_full myinput) (lit "POLL") = false ->
  encode_utf8 (myinput ++ [0%N]) = inr data ->
  write_raises os (calls s) data = Some (OSError errno) ->
  main_turn to_upper_full os int_of_str poll myinput s
  = (record_call (Write data) s, inr [lit "Query failed"]).
Proof.
  intros H1 H2 H3 He Hw.
  rewrite (main_turn_query myinput s H1 H2 H3), query_run.
  unfold query_bytes, bind. now rewrite write_run, He, Hw.
Qed.

(** X17.  A line beginning with LIST_ADDR is not sent to the board: the turn
    only binds and reads, and when it ends normally it has printed, in
    ascending order, addresses of 0..127 and left the recorded address as it
    was. *)
Theorem main_turn_list_addr (myinput : str) (s : state) :
  startswith (upper to_upper_full myinput) (lit "LIST_ADDR") = true ->
  let turn := main_turn to_upper_full os int_of_str poll myinput s in
  (exists new,
      calls (fst turn) = new ++ calls s
      /\ Forall (fun c => sweep_call (current_addr s) c = true) new)
  /\ (forall lines,
         snd turn = inr lines ->
         exists devices,
           lines = map str_of_int devices
           /\ StronglySorted Z.lt devices
           /\ Forall (fun i => 0 <= i < 128) devices
           /\ current_addr (fst turn) = current_addr s).
Proof.
  intros H1. cbv zeta. unfold main_turn. rewrite H1.
  pose proof (list_i2c_devices_effects os s) as [Hcalls _].
  rewrite list_i2c_devices_run in Hcalls |- *.
  destruct (for_each (range 0 128) (probe os) [] s) as [s1 [e | d]] eqn:E.
  - split; [exact Hcalls | discriminate].
  - destruct (set_i2c_address os (current_addr s) s1) as [s2 [e | u]] eqn:R.
    + split; [exact Hcalls | discriminate].
    + split; [exact Hcalls |].
      cbn [fst snd]. intros lines H. injection H as <-.
      destruct (sweep_collects os _ _ _ _ E) as [_ Hd].
      exists d. split; [reflexivity |]. split; [| split].
      * rewrite Hd. apply filter_sorted, range_sorted.
      * rewrite Hd. apply Forall_forall. intros i Hi.
        apply filter_In in Hi as [Hi _]. apply in_range_iff in Hi. lia.
      * exact (set_i2c_address_recorded os _ _ _ _ R).
Qed.

(** X18.  A line beginning with ADDRESS that holds no comma ends the turn
    with [IndexError] before anything is done to the channel. *)
Theorem main_turn_address_without_comma (myinput : str) (s : state) :
  startswith (upper to_upper_full myinput) (lit "LIST_ADDR") = false ->
  startswith (upper to_upper_full myinput) (lit "ADDRESS") = true ->
  ~ In 44%N myinput ->
  main_turn to_upper_full os int_of_str poll myinput s = (s, inl IndexError).
Proof.
  intros H1 H2 Hc. unfold main_turn.
  now rewrite H1, H2, (split_no_separator _ _ Hc).
Qed.

(** X19.  When the turn of an ADDRESS line ends normally, the text between
    the first and the second comma was read as an int, the channel is in step
    on that address and the line printed names it. *)
Theorem main_turn_address_selected
  (myinput : str) (s s' : state) (lines : list str) :
  startswith (upper to_upper_full myinput) (lit "LIST_ADDR") = false ->
  startswith (upper to_upper_full myinput) (lit "ADDRESS") = true ->
  main_turn to_upper_full os int_of_str poll myinput s = (s', inr lines) ->
  exists field addr,
    nth_error (split 44 myinput) 1 = Some field
    /\ int_of_str field = inr addr
    /\ current_addr s' = addr
    /\ in_sync os s'
    /\ lines = [lit "I2C address set to " ++ str_of_int addr].
Proof.
  intros H1 H2. unfold main_turn. rewrite H1, H2.
  destruct (nth_error (split 44 myinput) 1) as [field |] eqn:Hf;
    [| discriminate].
  destruct (int_of_str field) as [e | addr] eqn:Hi; [discriminate |].
  pose proof (set_i2c_address_bindings os addr s) as B. cbv zeta in B.
  destruct (set_i2c_address os addr s) as [s2 [e | u]]; [discriminate |].
  intros H. injection H as <- <-. cbn [fst snd] in B.
  destruct B as [Ha [Hr Hw]].
  exists field, addr. split; [reflexivity |]. split; [exact Hi |].
  split; [exact Ha |]. split; [| reflexivity].
  unfold in_sync. now rewrite Ha.
Qed.

End Turn.

(** ** The further properties on concrete buses *)

Lemma read_bytes_payload_exact_witness :
  exists res rest,
    read_returns (bus_answering [x00; x01; xb7; x00; x80; xae])
      (calls (opened 99)) 31 = inr res
    /\ filter (fun b => negb (Byte.eqb b x00)) res = x01 :: rest
    /\ map byte_val [x37; x00; x2e] = map (fun b => byte_val b mod 128) rest.
Proof.
  apply (read_bytes_payload_exact
           (bus_answering [x00; x01; xb7; x00; x80; xae]) 31 (opened 99)
           (record_call (Read 31) (opened 99)) [x37; x00; x2e]).
  reflexivity.
Defined.

Lemma read_undoes_glitch_witness :
  read (bus_answering (frame_of "7.00")) 31 (opened 99)
  = (record_call (Read 31) (opened 99), inr (lit "7.00")).
Proof.
  apply (read_undoes_glitch (bus_answering (frame_of "7.00")) 31 (opened 99)
           (frame_of "7.00") (lit "7.00")).
  - reflexivity.
  - reflexivity.
  - repeat constructor.
Defined.

Lemma query_returns_device_text_witness :
  snd (query ascii_upper (bus_answering (frame_of "?I,pH,1.0")) (lit "I")
         (opened 99))
  = inr (lit "?I,pH,1.0").
Proof.
  apply (query_returns_device_text ascii_upper
           (bus_answering (frame_of "?I,pH,1.0")) (lit "I") (opened 99)
           [x49; x00] (frame_of "?I,pH,1.0") (lit "?I,pH,1.0")
           (Sleep short_timeout :: Write [x49; x00] :: calls (opened 99)));
    try reflexivity.
  repeat constructor.
Defined.

Lemma query_stops_at_write_fault_witness :
  query ascii_upper bus_write_fault (lit "R") (opened 99)
  = (record_call (Write [x52; x00]) (opened 99), inl (OSError EREMOTEIO)).
Proof.
  apply (query_stops_at_write_fault ascii_upper bus_write_fault (lit "R")
           (opened 99) [x52; x00] (OSError EREMOTEIO)); reflexivity.
Defined.

Lemma opened_in_sync (device : option Z -> exn + bytes) (address : Z) :
  in_sync (bus device) (opened address).
Proof. split; reflexivity. Qed.

Lemma set_i2c_address_in_sync_witness :
  current_addr (fst (set_i2c_address bus_99_100 100 (opened 99))) = 100
  /\ in_sync bus_99_100 (fst (set_i2c_address bus_99_100 100 (opened 99))).
Proof.
  apply (set_i2c_address_in_sync bus_99_100 100 (opened 99) _ tt).
  reflexivity.
Defined.

Lemma set_i2c_address_half_bound_witness :
  in_sync (bus_busy_at 100) (opened 99)
  /\ snd (set_i2c_address (bus_busy_at 100) 100 (opened 99))
     = inl (OSError 16)
  /\ ~ in_sync (bus_busy_at 100)
         (fst (set_i2c_address (bus_busy_at 100) 100 (opened 99))).
Proof.
  assert (H : in_sync (bus_busy_at 100) (opened 99)) by (split; reflexivity).
  assert (Hne : 100 <> current_addr (opened 99)) by discriminate.
  destruct (set_i2c_address_half_bound (bus_busy_at 100) 100 (opened 99)
              (OSError 16) H Hne eq_refl eq_refl) as [Hs [_ [_ [_ Hn]]]].
  split; [exact H |]. split; [exact Hs | exact Hn].
Defined.

Lemma set_i2c_address_again_in_sync_witness :
  in_sync bus_99_100 (fst (set_i2c_address bus_99_100 99 (opened 99))).
Proof.
  apply (set_i2c_address_again_in_sync bus_99_100 (opened 99)).
  split; reflexivity.
Defined.

Lemma transfers_keep_in_sync_witness :
  in_sync bus_99_100 (fst (write bus_99_100 (lit "I") (opened 99)))
  /\ in_sync bus_99_100 (fst (read bus_99_100 31 (opened 99)))
  /\ in_sync bus_99_100 (fst (query ascii_upper bus_99_100 (lit "I")
                                (opened 99))).
Proof.
  apply (transfers_keep_in_sync ascii_upper bus_99_100 (lit "I") 31
           (opened 99)).
  split; reflexivity.
Defined.

Lemma list_i2c_devices_in_sync_witness :
  in_sync bus_99_100 (fst (list_i2c_devices bus_99_100 (opened 100))).
Proof.
  apply (list_i2c_devices_in_sync bus_99_100 (opened 100) _ [99; 100]).
  vm_compute. reflexivity.
Defined.

Lemma init_in_sync_witness :
  init any_bus bus_99_100 default_address default_bus = (opened 99, inr tt)
  /\ in_sync bus_99_100 (opened 99).
Proof.
  split; [reflexivity |].
  apply (init_in_sync bus_99_100 any_bus default_address default_bus
           (opened 99) tt eq_refl).
Defined.

Lemma main_turn_device_error_escapes_witness :
  snd (main_turn ascii_upper (bus_answering [x00; xfe; x00]) int_of_digits
         no_poll (lit "I") (opened 99))
  = inl (Raised (Exception (lit "Error 254"))).
Proof.
  assert (Hb : xfe <> x01) by discriminate.
  apply (main_turn_device_error_escapes ascii_upper
           (bus_answering [x00; xfe; x00]) int_of_digits no_poll
           (lit "I") (opened 99) [x49; x00] [x00; xfe; x00] xfe
           (Sleep short_timeout :: Write [x49; x00] :: calls (opened 99)));
    try reflexivity.
  exact Hb.
Defined.

Lemma main_turn_sleep_escapes_witness :
  main_turn ascii_upper bus_99_100 int_of_digits no_poll (lit "Sleep")
    (opened 99)
  = (record_call (Write [x53; x6c; x65; x65; x70; x00]) (opened 99),
     inl (Raised (Exception (lit "sleep mode")))).
Proof.
  apply (main_turn_sleep_escapes ascii_upper bus_99_100 int_of_digits
           no_poll (lit "Sleep") (opened 99)); reflexivity.
Defined.

Lemma main_turn_reports_write_fault_witness :
  main_turn ascii_upper bus_write_fault int_of_digits no_poll (lit "I")
    (opened 99)
  = (record_call (Write [x49; x00]) (opened 99), inr [lit "Query failed"]).
Proof.
  apply (main_turn_reports_write_fault ascii_upper bus_write_fault
           int_of_digits no_poll (lit "I") (opened 99) [x49; x00]
           EREMOTEIO); reflexivity.
Defined.

Lemma main_turn_list_addr_witness :
  snd (main_turn ascii_upper bus_99_100 int_of_digits no_poll
         (lit "list_addr") (opened 99))
  = inr [lit "99"; lit "100"]
  /\ exists devices,
       [lit "99"; lit "100"] = map str_of_int devices
       /\ StronglySorted Z.lt devices
       /\ Forall (fun i => 0 <= i < 128) devices
       /\ current_addr
            (fst (main_turn ascii_upper bus_99_100 int_of_digits no_poll
                    (lit "list_addr") (opened 99)))
          = current_addr (opened 99).
Proof.
  assert (H : snd (main_turn ascii_upper bus_99_100 int_of_digits no_poll
                     (lit "list_addr") (opened 99))
              = inr [lit "99"; lit "100"]).
  { vm_compute. reflexivity. }
  split; [exact H |].
  apply (proj2 (main_turn_list_addr ascii_upper bus_99_100 int_of_digits
                  no_poll (lit "list_addr") (opened 99) eq_refl)).
  exact H.
Defined.

Lemma main_turn_address_without_comma_witness :
  main_turn ascii_upper bus_99_100 int_of_digits no_poll (lit "Address")
    (opened 99)
  = (opened 99, inl IndexError).
Proof.
  apply (main_turn_address_without_comma ascii_upper bus_99_100
           int_of_digits no_poll (lit "Address") (opened 99));
    try reflexivity.
  vm_compute. intuition discriminate.
Defined.

Lemma main_turn_address_selected_witness :
  exists field addr,
    nth_error (split 44 (lit "Address,100")) 1 = Some field
    /\ int_of_digits field = inr addr
    /\ current_addr
         (fst (main_turn ascii_upper bus_99_100 int_of_digits no_poll
                 (lit "Address,100") (opened 99))) = addr
    /\ in_sync bus_99_100
         (fst (main_turn ascii_upper bus_99_100 int_of_digits no_poll
                 (lit "Address,100") (opened 99)))
    /\ [lit "I2C address set to 100"]
       = [lit "I2C address set to " ++ str_of_int addr].
Proof.
  apply (main_turn_address_selected ascii_upper bus_99_100 int_of_digits
           no_poll (lit "Address,100") (opened 99)); reflexivity.
Defined.
